(** * GitHub-Repo-Extractor: the range resolver and the extraction loops

    A shallow embedding of [src/extractor/v2/extractor.py].  Python integers
    are [Z], lists are [list], dictionaries with string keys are
    [gmap string _], exceptions are a constructor of the result type, and the
    remote session and the output file are an explicit world that the
    extraction loops thread through. *)

From Stdlib Require Import ZArith Lia Ascii String.
From stdpp Require Import base option list strings pretty gmap fin_maps.

Local Open Scope Z_scope.

(** ** Results of Python computations *)

(** The exceptions the modelled code can raise. *)
Inductive exn : Type :=
  | IndexError
  | KeyError
  | ZeroDivisionError
  | RateLimitExceededException.

Global Instance exn_eq_dec : EqDecision exn.
Proof. solve_decision. Defined.

(** A call returns a value or raises; [OutOfFuel] is the model's own mark for
    a [while] loop cut short, and is shown below never to be produced by the
    two binary searches, by [get_issues_data] or by [get_pr_data]. *)
Inductive outcome (A : Type) : Type :=
  | Return (a : A)
  | Raise (e : exn)
  | OutOfFuel.
Arguments Return {A} a.
Arguments Raise {A} e.
Arguments OutOfFuel {A}.

Global Instance outcome_ret : MRet outcome := @Return.
Global Instance outcome_bind : MBind outcome := λ A B f m,
  match m with
  | Return a => f a
  | Raise e => Raise e
  | OutOfFuel => OutOfFuel
  end.
Global Instance outcome_fmap : FMap outcome := λ A B f m,
  match m with
  | Return a => Return (f a)
  | Raise e => Raise e
  | OutOfFuel => OutOfFuel
  end.

(** ** Python sequences *)

(** [l[i]]: a negative index counts from the end, anything outside
    [-len(l) .. len(l) - 1] raises [IndexError]. *)
Definition py_index {A} (l : list A) (i : Z) : outcome A :=
  let n := Z.of_nat (length l) in
  let j := if i <? 0 then n + i else i in
  if (0 <=? j) && (j <? n) then
    match l !! Z.to_nat j with
    | Some x => Return x
    | None => Raise IndexError
    end
  else Raise IndexError.

(** ** The paginated list *)

(** Anything with a [number] attribute: issues and pull requests. *)
Class Numbered (A : Type) := number : A → Z.

(** A [github.PaginatedList] holds its items in the order the API gives them
    and serves them in pages of the session's page length: page [p] is the
    items [p * page_len .. (p + 1) * page_len - 1], the last page being
    shorter when the total is no multiple of the page length, and a page
    past the end being empty. *)
Definition get_page {A} (page_len : Z) (paged_list : list A) (page : Z) : list A :=
  take (Z.to_nat page_len) (drop (Z.to_nat (page * page_len)) paged_list).

Definition totalCount {A} (paged_list : list A) : Z := Z.of_nat (length paged_list).

Definition _get_page_last_item {A} (page_len : Z) (paged_list : list A)
    (page_index : Z) : outcome A :=
  py_index (get_page page_len paged_list page_index) (-1).

(** ** The two binary searches of [_get_api_item_indices] *)

Section Searches.
Context {A : Type} `{Numbered A}.

(** The [while low < high - 1] loop of [__bin_search_in_list]; one unit of
    fuel is spent per iteration. *)
Fixpoint bin_search_in_list_loop (page_len : Z) (paged_list : list A)
    (val : Z) (fuel : nat) (low high : Z) : outcome Z :=
  if low <? high - 1 then
    match fuel with
    | O => OutOfFuel
    | S fuel' =>
        let mid := (low + high) `div` 2 in
        first ← py_index (get_page page_len paged_list mid) 0;
        last ← _get_page_last_item page_len paged_list mid;
        let mid_first_val := number first in
        let mid_last_val := number last in
        if (mid_first_val <=? val) && (val <=? mid_last_val) then Return mid
        else if val <? mid_first_val then
          bin_search_in_list_loop page_len paged_list val fuel' low (mid - 1)
        else if mid_last_val <? val then
          bin_search_in_list_loop page_len paged_list val fuel' (mid + 1) high
        else
          bin_search_in_list_loop page_len paged_list val fuel' low high
    end
  else Return low.

Definition __bin_search_in_list (page_len : Z) (paged_list : list A)
    (last_page_index val : Z) : outcome Z :=
  bin_search_in_list_loop page_len paged_list val
    (Z.to_nat last_page_index) 0 last_page_index.

(** The [while low < page_len - 1] loop of [__bin_search_in_page]; the
    parameter [page_len] is the loop's upper bound and is overwritten by
    [mid - 1]. *)
Fixpoint bin_search_in_page_loop (paged_list_page : list A) (val : Z)
    (fuel : nat) (low page_len : Z) : outcome Z :=
  if low <? page_len - 1 then
    match fuel with
    | O => OutOfFuel
    | S fuel' =>
        let mid := (low + page_len) `div` 2 in
        cur ← py_index paged_list_page mid;
        let cur_val := number cur in
        if val =? cur_val then Return mid
        else if val <? cur_val then
          bin_search_in_page_loop paged_list_page val fuel' low (mid - 1)
        else if cur_val <? val then
          bin_search_in_page_loop paged_list_page val fuel' (mid + 1) page_len
        else
          bin_search_in_page_loop paged_list_page val fuel' low page_len
    end
  else Return low.

Definition __bin_search_in_page (paged_list_page : list A)
    (page_len val : Z) : outcome Z :=
  bin_search_in_page_loop paged_list_page val (Z.to_nat page_len) 0 page_len.

(** The body of [_get_api_item_indices] for one sanitized boundary. *)
Definition item_list_index (page_len : Z) (paged_list : list A)
    (last_page_index val : Z) : outcome Z :=
  page_index ← __bin_search_in_list page_len paged_list last_page_index val;
  item_page_index ←
    __bin_search_in_page (get_page page_len paged_list page_index) page_len val;
  Return (item_page_index + page_index * page_len).

(** [page_len] is what [self.gh_sesh.get_pg_len()] returns: the page length
    the session was configured with. *)
Definition _get_api_item_indices (page_len : Z) (paged_list : list A)
    (range_list : list Z) : outcome (list Z) :=
  if page_len =? 0 then Raise ZeroDivisionError else
  let last_page_index := (totalCount paged_list - 1) `div` page_len in
  last ← _get_page_last_item page_len paged_list last_page_index;
  let highest_num := number last in
  range_lo ← py_index range_list 0;
  range_hi ← py_index range_list (-1);
  let clean_range_tuple := (λ val, Z.min val highest_num) <$> [range_lo; range_hi] in
  mapM (item_list_index page_len paged_list last_page_index) clean_range_tuple.
End Searches.

(** ** Strings *)

(** Python's [str.isspace] on the characters below 256, which is what
    [str.strip] removes at both ends. *)
Definition py_isspace (c : ascii) : bool :=
  let n := N.to_nat (Ascii.N_of_ascii c) in
  bool_decide (n ∈ [9; 10; 11; 12; 13; 28; 29; 30; 31; 32; 133; 160]%nat).

Fixpoint lstrip (s : string) : string :=
  match s with
  | String c s' => if py_isspace c then lstrip s' else s
  | EmptyString => EmptyString
  end.

Definition strip (s : string) : string :=
  String.rev (lstrip (String.rev (lstrip s))).

(** [s.replace(c, "")] for a one-character [c]. *)
Fixpoint remove_char (c : ascii) (s : string) : string :=
  match s with
  | String c' s' =>
      if decide (c' = c) then remove_char c s' else String c' (remove_char c s')
  | EmptyString => EmptyString
  end.

(** [sep.join(l)] *)
Fixpoint join (sep : string) (l : list string) : string :=
  match l with
  | [] => ""
  | [s] => s
  | s :: l' => s +:+ sep +:+ join sep l'
  end.

Definition CR : ascii := Ascii.ascii_of_nat 13.
Definition LF : ascii := Ascii.ascii_of_nat 10.

Definition _clean_str (str_to_clean : option string) : string :=
  match str_to_clean with
  | None => "Nan"
  | Some s =>
      if decide (s = "") then "Nan"
      else
        let output_str := remove_char CR s in
        let output_str := remove_char LF output_str in
        strip output_str
  end.

(** ** The API objects *)

(** A [datetime] is used through its [strftime] method only. *)
Record datetime := { strftime : string → string }.

Definition TIME_FMT : string := "%D, %I:%M:%S %p".

Record named_user := { name : option string; login : option string }.

Record issue := {
  issue_number : Z;
  issue_body : option string;
  issue_closed_at : option datetime;
  issue_title : string;
  issue_user : named_user;
  (** the bodies of what [get_comments()] lists *)
  issue_comments : list string
}.

Record file := {
  filename : string;
  additions : Z;
  changes : Z;
  deletions : Z;
  patch : option string;
  status : string
}.

Record git_author := { author_name : string; author_date : datetime }.

Record git_commit := {
  author : git_author;
  committer : string;
  message : option string
}.

Record commit := { sha : string; commit_commit : git_commit; files : list file }.

Record pull_request := {
  pr_number : Z;
  pr_body : option string;
  pr_closed_at : option datetime;
  pr_merged : bool;
  pr_title : string;
  pr_user : named_user;
  (** what [get_commits()] lists *)
  pr_commits : list commit
}.

(** The attributes issues and pull requests share, which the getters below
    reach by name. *)
Class ApiObj (A : Type) := {
  api_number :: Numbered A;
  body : A → option string;
  closed_at : A → option datetime;
  title : A → string;
  user : A → named_user
}.

Global Instance issue_api : ApiObj issue := {|
  api_number := issue_number; body := issue_body; closed_at := issue_closed_at;
  title := issue_title; user := issue_user |}.

Global Instance pr_api : ApiObj pull_request := {|
  api_number := pr_number; body := pr_body; closed_at := pr_closed_at;
  title := pr_title; user := pr_user |}.

(** ** Extracted values *)

(** What a getter can hand back and what ends up in the JSON output. *)
#[local] Set Warnings "-register-all".
Inductive value : Type :=
  | VNone
  | VBool (b : bool)
  | VInt (n : Z)
  | VStr (s : string)
  | VList (l : list value)
  | VDict (d : list (string * value)).

(** [str(x)] of an optional string: [None] prints as ["None"]. *)
Definition py_str (x : option string) : string := default "None" x.

(** ** The getters *)

Definition _get_body `{ApiObj A} (api_obj : A) : value :=
  VStr (_clean_str (body api_obj)).

Definition _get_closed_time `{ApiObj A} (api_obj : A) : value :=
  match closed_at api_obj with
  | Some d => VStr (strftime d TIME_FMT)
  | None => VStr "NaN"
  end.

Definition _get_issue_comments (issue_obj : issue) : value :=
  let comments_paged_list := issue_comments issue_obj in
  if decide (totalCount comments_paged_list ≠ 0) then
    let sep_str := " =||= " in
    let comment_str := join sep_str (strip <$> comments_paged_list) in
    VStr (_clean_str (Some comment_str))
  else VStr "NaN".

Definition _get_pr_merged (pr_obj : pull_request) : value := VBool (pr_merged pr_obj).

Definition _get_title `{ApiObj A} (api_obj : A) : value := VStr (title api_obj).

Definition _get_username `{ApiObj A} (api_obj : A) : value :=
  VStr (_clean_str (name (user api_obj))).

Definition _get_userlogin `{ApiObj A} (api_obj : A) : value :=
  VStr (_clean_str (login (user api_obj))).

Definition _get_commit_auth_date (api_obj : commit) : value :=
  VStr (strftime (author_date (author (commit_commit api_obj))) TIME_FMT).

Definition _get_commit_auth_name (api_obj : commit) : value :=
  VStr (author_name (author (commit_commit api_obj))).

Definition _get_commit_committer (api_obj : commit) : value :=
  VStr (committer (commit_commit api_obj)).

(** The [for file in file_list] loop of [_get_commit_files], on the tuple of
    its six accumulators. *)
Definition commit_files_step
    (acc : list value * Z * Z * string * Z * string) (f : file) :=
  let '(commit_file_list, commit_adds, commit_changes, commit_patch_text,
        commit_removes, commit_status_str) := acc in
  (commit_file_list ++ [VStr (filename f)],
   commit_adds + additions f,
   commit_changes + changes f,
   commit_patch_text +:+ py_str (patch f) +:+ ", ",
   commit_removes + deletions f,
   commit_status_str +:+ status f +:+ ", ").

Definition QUOTE : string := String (Ascii.ascii_of_nat 34) EmptyString.

Definition _get_commit_files (api_obj : commit) : value :=
  let file_list := files api_obj in
  let '(commit_file_list, commit_adds, commit_changes, commit_patch_text,
        commit_removes, commit_status_str) :=
    foldl commit_files_step ([], 0, 0, "", 0, "") file_list in
  let quoted_commit_status_str := QUOTE +:+ commit_status_str +:+ QUOTE in
  VDict [("file_list", VList commit_file_list);
         ("additions", VInt commit_adds);
         ("changes", VInt commit_changes);
         ("patch_text", VStr (_clean_str (Some commit_patch_text)));
         ("removals", VInt commit_removes);
         ("status", VStr (_clean_str (Some quoted_commit_status_str)))].

Definition _get_commit_msg (api_obj : commit) : value :=
  VStr (_clean_str (message (commit_commit api_obj))).

Definition _get_commit_sha (api_obj : commit) : value := VStr (sha api_obj).

Definition _merge_dicts {V} (base to_merge : gmap string V) : gmap string V :=
  to_merge ∪ base.

(** ** The dispatch tables *)

Definition COMMIT_CMD_DISPATCH : gmap string (commit → value) :=
  list_to_map [
    ("commit_author_name", _get_commit_auth_name);
    ("committer", _get_commit_committer);
    ("commit_date", _get_commit_auth_date);
    ("commit_files", _get_commit_files);
    ("commit_message", _get_commit_msg);
    ("commit_sha", _get_commit_sha)].

Definition ISSUE_CMD_DISPATCH : gmap string (issue → value) :=
  list_to_map [
    ("issue_body", _get_body);
    ("issue_closed", _get_closed_time);
    ("issue_comments", _get_issue_comments);
    ("issue_title", _get_title);
    ("issue_userlogin", _get_userlogin);
    ("issue_username", _get_username)].

Definition PR_CMD_DISPATCH : gmap string (pull_request → value) :=
  list_to_map [
    ("pr_body", _get_body);
    ("pr_closed", _get_closed_time);
    ("__pr_merged", _get_pr_merged);
    ("pr_title", _get_title);
    ("pr_userlogin", _get_userlogin);
    ("pr_username", _get_username)].

(** ** The configuration *)

(** The values [get_cfg_val] serves, as the schema admits them. *)
Record cfg := {
  cfg_state : string;
  cfg_range : list Z;
  cfg_commit_fields : list string;
  cfg_issues_fields : list string;
  cfg_pr_fields : list string
}.

(** ** Entries *)

(** [{field: DISPATCH[field](obj) for field in fields}]: a field missing from
    the table raises [KeyError], a repeated field is written again. *)
Fixpoint dict_comprehension {A} (dispatch : gmap string (A → value)) (obj : A)
    (fields : list string) (acc : gmap string value) : outcome (gmap string value) :=
  match fields with
  | [] => Return acc
  | field :: fields' =>
      match dispatch !! field with
      | Some getter =>
          dict_comprehension dispatch obj fields' (<[field := getter obj]> acc)
      | None => Raise KeyError
      end
  end.

Definition issue_item_data (c : cfg) (cur_issue : issue) : outcome (gmap string value) :=
  dict_comprehension ISSUE_CMD_DISPATCH cur_issue (cfg_issues_fields c) ∅.

(** [__get_last_commit] *)
Definition get_last_commit (pr_obj : pull_request) : outcome commit :=
  let cur_commit_list := pr_commits pr_obj in
  let last_commit_index := totalCount cur_commit_list - 1 in
  py_index cur_commit_list last_commit_index.

(** The value built for one pull request inside the [try] of [get_pr_data],
    before it is wrapped under the number of the pull request. *)
Definition pr_entry (c : cfg) (cur_pr : pull_request) : outcome (gmap string value) :=
  let is_merged := pr_merged cur_pr in
  let cur_entry : gmap string value := {["__pr_merged" := VBool is_merged]} in
  if is_merged || bool_decide (cfg_state c = "open") then
    cur_entry_data ← dict_comprehension PR_CMD_DISPATCH cur_pr (cfg_pr_fields c) ∅;
    let cur_entry := _merge_dicts cur_entry cur_entry_data in
    last_commit ← get_last_commit cur_pr;
    if 0 <? Z.of_nat (length (files last_commit)) then
      cur_entry_data ← dict_comprehension COMMIT_CMD_DISPATCH last_commit
                         (cfg_commit_fields c) ∅;
      Return (_merge_dicts cur_entry cur_entry_data)
    else Return cur_entry
  else Return cur_entry.

(** ** The world: the remote session and the output file *)

(** [limits] is the remote service's answer to each coming attempt to reach
    it: [true] when it refuses with a rate limit.  [written] lists, oldest
    first, the dictionaries handed to [file_io.write_merged_dict_to_json];
    [sleeps] counts the calls of [sleep_gh_session]. *)
Record world := {
  limits : list bool;
  written : list (gmap string (gmap string (gmap string value)));
  sleeps : nat
}.

Definition write_merged_dict_to_json
    (data_dict : gmap string (gmap string (gmap string value))) (w : world) : world :=
  {| limits := limits w; written := written w ++ [data_dict]; sleeps := sleeps w |}.

Definition sleep_gh_session (w : world) : world :=
  {| limits := limits w; written := written w; sleeps := S (sleeps w) |}.

(** [paged_list[index]] through the session: the request is refused when the
    service says so, and otherwise yields the item at that position. *)
Definition paged_list_getitem {A} (paged_list : list A) (index : Z) (w : world)
    : outcome A * world :=
  match limits w with
  | true :: rest =>
      (Raise RateLimitExceededException,
       {| limits := rest; written := written w; sleeps := sleeps w |})
  | false :: rest =>
      (py_index paged_list index,
       {| limits := rest; written := written w; sleeps := sleeps w |})
  | [] => (py_index paged_list index, w)
  end.

(** The [try] block of [get_issues_data]. *)
Definition issues_try (c : cfg) (issues_paged_list : list issue) (start_val : Z)
    (w : world) : outcome (gmap string (gmap string value)) * world :=
  match paged_list_getitem issues_paged_list start_val w with
  | (Return cur_issue, w') =>
      let cur_issue_num := pretty (number cur_issue) in
      (cur_item_data ← issue_item_data c cur_issue;
       Return {[cur_issue_num := cur_item_data]}, w')
  | (Raise e, w') => (Raise e, w')
  | (OutOfFuel, w') => (OutOfFuel, w')
  end.

(** The [try] block of [get_pr_data]. *)
Definition pr_try (c : cfg) (pr_paged_list : list pull_request) (start_val : Z)
    (w : world) : outcome (gmap string (gmap string value)) * world :=
  match paged_list_getitem pr_paged_list start_val w with
  | (Return cur_pr, w') =>
      (cur_entry ← pr_entry c cur_pr;
       Return {[pretty (number cur_pr) := cur_entry]}, w')
  | (Raise e, w') => (Raise e, w')
  | (OutOfFuel, w') => (OutOfFuel, w')
  end.

(** ** The extraction loop *)

(** [get_issues_data] and [get_pr_data] run the same loop; they differ in the
    key of [data_dict] and in the [try] block. *)
Section ExtractionLoop.
Variable key : string.
Variable try_block :
  Z → world → outcome (gmap string (gmap string value)) * world.

(** One pass through the body of [while start_val < end_val + 1]: the
    [try], then its [except github.RateLimitExceededException] or its
    [else].  The result is the new [data_dict] and [start_val].
    [print_rem_gh_calls] prints and is left out. *)
Definition loop_body (data_dict : gmap string (gmap string (gmap string value)))
    (start_val : Z) (w : world)
    : outcome (gmap string (gmap string (gmap string value)) * Z) * world :=
  match try_block start_val w with
  | (Raise RateLimitExceededException, w') =>
      let w' := write_merged_dict_to_json data_dict w' in
      (Return (∅, start_val), sleep_gh_session w')
  | (Raise e, w') => (Raise e, w')
  | (OutOfFuel, w') => (OutOfFuel, w')
  | (Return cur_entry, w') =>
      match data_dict !! key with
      | Some items =>
          (Return (<[key := _merge_dicts items cur_entry]> data_dict, start_val + 1), w')
      | None => (Raise KeyError, w')
      end
  end.

Fixpoint extraction_loop (end_val : Z) (fuel : nat)
    (data_dict : gmap string (gmap string (gmap string value)))
    (start_val : Z) (w : world)
    : outcome (gmap string (gmap string (gmap string value))) * world :=
  if start_val <? end_val + 1 then
    match fuel with
    | O => (OutOfFuel, w)
    | S fuel' =>
        match loop_body data_dict start_val w with
        | (Return (data_dict', start_val'), w') =>
            extraction_loop end_val fuel' data_dict' start_val' w'
        | (Raise e, w') => (Raise e, w')
        | (OutOfFuel, w') => (OutOfFuel, w')
        end
    end
  else (Return data_dict, w).

(** Everything after [data_dict] is set up: the range is resolved, the loop
    runs and what is left is written.  Each refusal of the service and each
    index of the range costs one pass, which bounds the passes.  The
    refusals of the service are modelled inside the loop only: one met
    while the range is resolved is outside every [try] and ends the run. *)
Definition get_data {A} `{Numbered A} (page_len : Z) (paged_list : list A)
    (val_range : list Z) (w : world) : outcome unit * world :=
  let data_dict : gmap string (gmap string (gmap string value)) := {[key := ∅]} in
  match
    range_list ← _get_api_item_indices page_len paged_list val_range;
    start_val ← py_index range_list 0;
    end_val ← py_index range_list 1;
    Return (start_val, end_val)
  with
  | Return (start_val, end_val) =>
      let fuel := (Z.to_nat (end_val + 1 - start_val) + length (limits w))%nat in
      match extraction_loop end_val fuel data_dict start_val w with
      | (Return data_dict, w') => (Return (), write_merged_dict_to_json data_dict w')
      | (Raise e, w') => (Raise e, w')
      | (OutOfFuel, w') => (OutOfFuel, w')
      end
  | Raise e => (Raise e, w)
  | OutOfFuel => (OutOfFuel, w)
  end.
End ExtractionLoop.

Definition get_issues_data (c : cfg) (page_len : Z) (issues_paged_list : list issue)
    (w : world) : outcome unit * world :=
  get_data "issue" (issues_try c issues_paged_list) page_len issues_paged_list
    (cfg_range c) w.

Definition get_pr_data (c : cfg) (page_len : Z) (pr_paged_list : list pull_request)
    (w : world) : outcome unit * world :=
  get_data "pr" (pr_try c pr_paged_list) page_len pr_paged_list (cfg_range c) w.

(** Modelled from the spec: [file_io.write_merged_dict_to_json] is not among
    the sources.  The store is merge-written: each write adds its keys to what
    the file holds without discarding the rest, one level below the ["issue"]
    or ["pr"] key, so the file ends up holding the merge of all writes. *)
Definition merged_output
    (writes : list (gmap string (gmap string (gmap string value))))
    : gmap string (gmap string (gmap string value)) :=
  foldl (λ file_dict data_dict,
           union_with (λ new old, Some (_merge_dicts old new)) data_dict file_dict)
        ∅ writes.

(** ** Dictionaries as objects *)

(** Python passes dictionaries by reference.  A heap lists the dictionary
    objects by address; a call of [_merge_dicts] reads its two arguments and
    allocates the dictionary [{**base, **to_merge}] it returns. *)
Definition call_merge_dicts {V} (heap : list (gmap string V)) (base to_merge : nat)
    : option (list (gmap string V) * nat) :=
  b ← heap !! base;
  t ← heap !! to_merge;
  Some (heap ++ [_merge_dicts b t], length heap).

(** [range_list[1]], the end index [get_issues_data] and [get_pr_data] unpack
    from what [_get_api_item_indices] returns. *)
Definition end_index (range_list : outcome (list Z)) : outcome Z :=
  l ← range_list; py_index l 1.

(** ** Sample data *)

Definition nobody : named_user := {| name := None; login := None |}.

(** An open issue carrying nothing but its number. *)
Definition mk_issue (n : Z) : issue :=
  {| issue_number := n; issue_body := None; issue_closed_at := None;
     issue_title := "title"; issue_user := nobody; issue_comments := [] |}.

(** The issues numbered [1 .. n], without gaps. *)
Definition issues_upto (n : Z) : list issue := mk_issue <$> seqZ 1 n.

(** An issue whose title is the empty text and whose body is one space. *)
Definition blank_issue : issue :=
  {| issue_number := 1; issue_body := Some " "; issue_closed_at := None;
     issue_title := ""; issue_user := nobody; issue_comments := [] |}.

(** A closed, merged pull request whose only commit touched no file. *)
Definition noon : datetime := {| strftime := λ _, "01/02/21, 12:00:00 PM" |}.

Definition ada : git_author := {| author_name := "Ada"; author_date := noon |}.

Definition empty_commit : commit :=
  {| sha := "c0ffee";
     commit_commit := {| author := ada; committer := "Ada"; message := Some "merge" |};
     files := [] |}.

Definition readme : file :=
  {| filename := "README.md"; additions := 3; changes := 4; deletions := 1;
     patch := None; status := "modified" |}.

Definition readme_commit : commit :=
  {| sha := "decade";
     commit_commit := {| author := ada; committer := "Ada"; message := None |};
     files := [readme] |}.

Definition mk_pr (n : Z) (merged : bool) (commits : list commit) : pull_request :=
  {| pr_number := n; pr_body := Some ""; pr_closed_at := Some noon;
     pr_merged := merged; pr_title := "title"; pr_user := nobody;
     pr_commits := commits |}.

(** Pull requests 1 (merged, last commit without files), 2 (not merged) and
    3 (merged, last commit touching one file). *)
Definition sample_prs : list pull_request :=
  [mk_pr 1 true [readme_commit; empty_commit];
   mk_pr 2 false [readme_commit];
   mk_pr 3 true [readme_commit]].

Definition sample_cfg : cfg :=
  {| cfg_state := "closed"; cfg_range := [1; 2];
     cfg_commit_fields := ["commit_sha"; "commit_files"];
     cfg_issues_fields := ["issue_title"; "issue_body"];
     cfg_pr_fields := ["pr_title"; "pr_body"] |}.

(** A service that answers each coming attempt as [limits] says, and an
    output file nothing was written to yet. *)
Definition fresh_world (limits : list bool) : world :=
  {| limits := limits; written := []; sleeps := 0 |}.

(** The same configuration set on pull request 3 alone. *)
Definition files_cfg : cfg :=
  {| cfg_state := "closed"; cfg_range := [3; 3];
     cfg_commit_fields := ["commit_sha"; "commit_files"];
     cfg_issues_fields := ["issue_title"; "issue_body"];
     cfg_pr_fields := ["pr_title"; "pr_body"] |}.

(** What [sample_cfg] extracts from an issue made by [mk_issue]. *)
Definition sample_issue_entry : gmap string value :=
  {["issue_title" := VStr "title"; "issue_body" := VStr "Nan"]}.

(** What [sample_cfg] extracts from the pull requests 1 and 2 of the sample. *)
Definition sample_pr_entry_1 : gmap string value :=
  {["__pr_merged" := VBool true; "pr_title" := VStr "title";
    "pr_body" := VStr "Nan"]}.

Definition sample_pr_entry_2 : gmap string value :=
  {["__pr_merged" := VBool false]}.

(** ** The shape of extracted values *)

Definition is_str (v : value) : Prop :=
  match v with VStr _ => True | _ => False end.

(** The shape of a field value in the words of the specification: a string,
    or the boolean of the merged flag, or the sequence of strings of the
    commit file list. *)
Definition spec_value_shape (field : string) (v : value) : Prop :=
  match v with
  | VStr _ => True
  | VBool _ => field = "__pr_merged"
  | VList l => field = "commit_files" ∧ Forall is_str l
  | _ => False
  end.

(** The dictionary [_get_commit_files] builds. *)
Definition commit_files_shape (d : list (string * value)) : Prop :=
  ∃ file_list adds changes patch_text removes status_str,
    d = [("file_list", VList file_list); ("additions", VInt adds);
         ("changes", VInt changes); ("patch_text", VStr patch_text);
         ("removals", VInt removes); ("status", VStr status_str)]
    ∧ Forall is_str file_list.

(** The shape of a field value as the getters produce it: a boolean under
    ["__pr_merged"], the dictionary of [_get_commit_files] under
    ["commit_files"], a string under every other key. *)
Definition entry_value_shape (field : string) (v : value) : Prop :=
  if decide (field = "__pr_merged") then ∃ b, v = VBool b
  else if decide (field = "commit_files") then ∃ d, v = VDict d ∧ commit_files_shape d
  else is_str v.

(** Every field value of every entry of a dictionary handed to the output
    file has the shape [shape]. *)
Definition entries_shaped (shape : string → value → Prop)
    (data_dict : gmap string (gmap string (gmap string value))) : Prop :=
  ∀ top items num entry field v,
    data_dict !! top = Some items → items !! num = Some entry →
    entry !! field = Some v → shape field v.

(** Every entry of a dictionary handed to the output file, with the key it
    is filed under, satisfies [P]. *)
Definition entries_satisfy (P : string → gmap string value → Prop)
    (data_dict : gmap string (gmap string (gmap string value))) : Prop :=
  ∀ top items num entry,
    data_dict !! top = Some items → items !! num = Some entry → P num entry.

(** A text there is nothing of: [None] or the empty text. *)
Definition missing_text (s : option string) : Prop := s = None ∨ s = Some "".

(** What the entry of an issue holds: values of the right shape, none of
    them null, the placeholder ["Nan"] for a body, user name or user login
    there is nothing of, ["NaN"] for a closing time or comments there are
    none of, and the title as it is. *)
Definition issue_entry_of (x : issue) (entry : gmap string value) : Prop :=
  (∀ field v, entry !! field = Some v → entry_value_shape field v ∧ v ≠ VNone)
  ∧ (∀ v, entry !! "issue_body" = Some v → missing_text (body x) → v = VStr "Nan")
  ∧ (∀ v, entry !! "issue_username" = Some v → missing_text (name (user x)) →
          v = VStr "Nan")
  ∧ (∀ v, entry !! "issue_userlogin" = Some v → missing_text (login (user x)) →
          v = VStr "Nan")
  ∧ (∀ v, entry !! "issue_closed" = Some v → closed_at x = None → v = VStr "NaN")
  ∧ (∀ v, entry !! "issue_comments" = Some v → issue_comments x = [] →
          v = VStr "NaN")
  ∧ (∀ v, entry !! "issue_title" = Some v → v = VStr (title x)).

(** The same for the entry of a pull request, which always holds the merged
    flag; the commit message is the one of the last commit. *)
Definition pr_entry_of (x : pull_request) (entry : gmap string value) : Prop :=
  (∀ field v, entry !! field = Some v → entry_value_shape field v ∧ v ≠ VNone)
  ∧ entry !! "__pr_merged" = Some (VBool (pr_merged x))
  ∧ (∀ v, entry !! "pr_body" = Some v → missing_text (body x) → v = VStr "Nan")
  ∧ (∀ v, entry !! "pr_username" = Some v → missing_text (name (user x)) →
          v = VStr "Nan")
  ∧ (∀ v, entry !! "pr_userlogin" = Some v → missing_text (login (user x)) →
          v = VStr "Nan")
  ∧ (∀ v, entry !! "pr_closed" = Some v → closed_at x = None → v = VStr "NaN")
  ∧ (∀ v, entry !! "pr_title" = Some v → v = VStr (title x))
  ∧ (∀ v last_commit,
       entry !! "commit_message" = Some v →
       get_last_commit x = Return last_commit →
       missing_text (message (commit_commit last_commit)) → v = VStr "Nan").

(** An entry filed under [num] is the entry of a record of [paged_list]
    that has this number. *)
Definition written_of {A} `{Numbered A} (entry_of : A → gmap string value → Prop)
    (paged_list : list A) (num : string) (entry : gmap string value) : Prop :=
  ∃ x, x ∈ paged_list ∧ num = pretty (number x) ∧ entry_of x entry.
(** The getter a table holds under a given key. *)
Ltac getter_is Hg g :=
  match type of Hg with
  | ?l = Some _ => change l with (Some g) in Hg; injection Hg as <-
  end.

(** ** Ending *)

(** Computations that reach the service nowhere neither run on for ever nor
    meet the rate limit. *)
Definition settles {A} (r : outcome A) : Prop :=
  r ≠ OutOfFuel ∧ r ≠ Raise RateLimitExceededException.

(** What a [try] block must do to the service for the loop to end: it stops,
    it never adds to the refusals the service has in store, and each refusal
    it meets uses one of them up. *)
Definition uses_up_refusals
    (try_block : Z → world → outcome (gmap string (gmap string value)) * world)
    : Prop :=
  ∀ i w r w1,
    try_block i w = (r, w1) →
    r ≠ OutOfFuel
    ∧ (length (limits w1) ≤ length (limits w))%nat
    ∧ (r = Raise RateLimitExceededException →
       (length (limits w1) < length (limits w))%nat).

(** ** Ascending collections *)

(** The order the API serves issues and pull requests in, oldest first:
    a later position carries a higher number. *)
Definition ascending {A} `{Numbered A} (l : list A) : Prop :=
  ∀ (a b : nat) (x y : A),
    l !! a = Some x → l !! b = Some y → (a < b)%nat → number x < number y.

(** Every record before position [index] is numbered below [val]. *)
Definition below_before {A} `{Numbered A} (l : list A) (val index : Z) : Prop :=
  ∀ (j : nat) (x : A), Z.of_nat j < index → l !! j = Some x → number x < val.

(** ** Fetching a paginated list *)

(** What a repository serves for the configured state. *)
Record repository := {
  repo_issues : list issue;
  repo_pulls : list pull_request
}.

Inductive api_paged_list : Type :=
  | IssuesPagedList (l : list issue)
  | PullsPagedList (l : list pull_request).

(** [self.gh_sesh.session.get_repo(job_repo)]: one request to the service. *)
Definition get_repo (repo_obj : repository) (w : world) : outcome repository * world :=
  match limits w with
  | true :: rest =>
      (Raise RateLimitExceededException,
       {| limits := rest; written := written w; sleeps := sleeps w |})
  | false :: rest =>
      (Return repo_obj, {| limits := rest; written := written w; sleeps := sleeps w |})
  | [] => (Return repo_obj, w)
  end.

(** The [while True] loop of [__get_paged_list]. *)
Fixpoint get_paged_list_loop (the_repo : repository) (list_type : string)
    (fuel : nat) (w : world) : outcome api_paged_list * world :=
  match fuel with
  | O => (OutOfFuel, w)
  | S fuel' =>
      match get_repo the_repo w with
      | (Return repo_obj, w') =>
          if decide (list_type = "issues")
          then (Return (IssuesPagedList (repo_issues repo_obj)), w')
          else (Return (PullsPagedList (repo_pulls repo_obj)), w')
      | (Raise RateLimitExceededException, w') =>
          get_paged_list_loop the_repo list_type fuel' (sleep_gh_session w')
      | (Raise e, w') => (Raise e, w')
      | (OutOfFuel, w') => (OutOfFuel, w')
      end
  end.

(** Each pass but the last meets a refusal, which bounds the passes. *)
Definition __get_paged_list (the_repo : repository) (list_type : string) (w : world)
    : outcome api_paged_list * world :=
  get_paged_list_loop the_repo list_type (S (length (limits w))) w.

(** ** Characters of a string *)

Definition chars (s : string) : list ascii := list_ascii_of_string s.

(** [sum(f(x) for x in l)] *)
Definition sum_of {A} (f : A → Z) (l : list A) : Z := foldr Z.add 0 (f <$> l).

(** The text [_get_commit_files] gathers from a field of the files: each
    value followed by a comma and a space. *)
Definition comma_joined {A} (f : A → string) (l : list A) : string :=
  foldr (λ x acc, f x +:+ ", " +:+ acc) "" l.

(** ** The range resolver through the session *)

(** [_get_api_item_indices] reaches the service outside every [try]: for the
    total count and for every page it looks at.  Here each of these requests
    takes the next answer of the service, and a refusal is raised to the
    caller.  The definitions above it are what this comes to when the
    service refuses none of these requests. *)
Module Remote.

(** A computation that may reach the service. *)
Definition session (A : Type) : Type := world → outcome A * world.

#[export] Instance session_ret : MRet session := λ A a w, (Return a, w).
#[export] Instance session_bind : MBind session := λ A B f m w,
  match m w with
  | (Return a, w') => f a w'
  | (Raise e, w') => (Raise e, w')
  | (OutOfFuel, w') => (OutOfFuel, w')
  end.

(** A computation that stays on this side. *)
Definition local {A} (r : outcome A) : session A := λ w, (r, w).

(** One request to the service, which answers or refuses. *)
Definition request {A} (answer : A) : session A := λ w,
  match limits w with
  | true :: rest =>
      (Raise RateLimitExceededException,
       {| limits := rest; written := written w; sleeps := sleeps w |})
  | false :: rest =>
      (Return answer, {| limits := rest; written := written w; sleeps := sleeps w |})
  | [] => (Return answer, w)
  end.

(** [paged_list.totalCount] *)
Definition totalCount {A} (paged_list : list A) : session Z :=
  request (totalCount paged_list).

(** [paged_list.get_page(page)] *)
Definition get_page {A} (page_len : Z) (paged_list : list A) (page : Z)
    : session (list A) :=
  request (get_page page_len paged_list page).

Definition _get_page_last_item {A} (page_len : Z) (paged_list : list A)
    (page_index : Z) : session A :=
  page ← get_page page_len paged_list page_index;
  local (py_index page (-1)).

Section Searches.
Context {A : Type} `{Numbered A}.

(** The loop of [__bin_search_in_list], which fetches the middle page twice:
    for its first and for its last item. *)
Fixpoint bin_search_in_list_loop (page_len : Z) (paged_list : list A)
    (val : Z) (fuel : nat) (low high : Z) : session Z :=
  if low <? high - 1 then
    match fuel with
    | O => local OutOfFuel
    | S fuel' =>
        let mid := (low + high) `div` 2 in
        page ← get_page page_len paged_list mid;
        first ← local (py_index page 0);
        last ← _get_page_last_item page_len paged_list mid;
        let mid_first_val := number first in
        let mid_last_val := number last in
        if (mid_first_val <=? val) && (val <=? mid_last_val) then mret mid
        else if val <? mid_first_val then
          bin_search_in_list_loop page_len paged_list val fuel' low (mid - 1)
        else if mid_last_val <? val then
          bin_search_in_list_loop page_len paged_list val fuel' (mid + 1) high
        else
          bin_search_in_list_loop page_len paged_list val fuel' low high
    end
  else mret low.

Definition __bin_search_in_list (page_len : Z) (paged_list : list A)
    (last_page_index val : Z) : session Z :=
  bin_search_in_list_loop page_len paged_list val
    (Z.to_nat last_page_index) 0 last_page_index.

(** The body of [_get_api_item_indices] for one sanitized boundary; the
    search inside the page works on the page it was handed. *)
Definition item_list_index (page_len : Z) (paged_list : list A)
    (last_page_index val : Z) : session Z :=
  page_index ← __bin_search_in_list page_len paged_list last_page_index val;
  paged_list_page ← get_page page_len paged_list page_index;
  item_page_index ← local (__bin_search_in_page paged_list_page page_len val);
  mret (item_page_index + page_index * page_len).

Definition _get_api_item_indices (page_len : Z) (paged_list : list A)
    (range_list : list Z) : session (list Z) :=
  total ← totalCount paged_list;
  if page_len =? 0 then local (Raise ZeroDivisionError) else
  let last_page_index := (total - 1) `div` page_len in
  last ← _get_page_last_item page_len paged_list last_page_index;
  let highest_num := number last in
  range_lo ← local (py_index range_list 0);
  range_hi ← local (py_index range_list (-1));
  low_index ←
    item_list_index page_len paged_list last_page_index (Z.min range_lo highest_num);
  high_index ←
    item_list_index page_len paged_list last_page_index (Z.min range_hi highest_num);
  mret [low_index; high_index].

(** [get_issues_data] and [get_pr_data] from their first line on. *)
Definition get_data (key : string)
    (try_block : Z → world → outcome (gmap string (gmap string value)) * world)
    (page_len : Z) (paged_list : list A) (val_range : list Z) : session unit := λ w,
  let data_dict : gmap string (gmap string (gmap string value)) := {[key := ∅]} in
  match
    (range_list ← _get_api_item_indices page_len paged_list val_range;
     start_val ← local (py_index range_list 0);
     end_val ← local (py_index range_list 1);
     mret (start_val, end_val)) w
  with
  | (Return (start_val, end_val), w1) =>
      let fuel := (Z.to_nat (end_val + 1 - start_val) + length (limits w1))%nat in
      match extraction_loop key try_block end_val fuel data_dict start_val w1 with
      | (Return data_dict, w') => (Return (), write_merged_dict_to_json data_dict w')
      | (Raise e, w') => (Raise e, w')
      | (OutOfFuel, w') => (OutOfFuel, w')
      end
  | (Raise e, w1) => (Raise e, w1)
  | (OutOfFuel, w1) => (OutOfFuel, w1)
  end.
End Searches.

Definition get_issues_data (c : cfg) (page_len : Z) (issues_paged_list : list issue)
    : session unit :=
  get_data "issue" (issues_try c issues_paged_list) page_len issues_paged_list
    (cfg_range c).

Definition get_pr_data (c : cfg) (page_len : Z) (pr_paged_list : list pull_request)
    : session unit :=
  get_data "pr" (pr_try c pr_paged_list) page_len pr_paged_list (cfg_range c).

End Remote.

(** ** Texts as sequences of code points *)

(** A Python [str] is a sequence of Unicode code points, and [str.strip]
    removes every character Python counts as whitespace, of which seventeen
    lie above code point 255.  The texts above are sequences of 8-bit
    characters, read as the code points below 256; here [_clean_str] is
    given on all texts. *)
Module Unicode.

(** The code points [c] with [chr(c).isspace()]. *)
Definition WHITESPACE : list N :=
  [9; 10; 11; 12; 13; 28; 29; 30; 31; 32; 133; 160; 5760;
   8192; 8193; 8194; 8195; 8196; 8197; 8198; 8199; 8200; 8201; 8202;
   8232; 8233; 8239; 8287; 12288]%N.

Definition py_isspace (c : N) : bool := bool_decide (c ∈ WHITESPACE).

Fixpoint lstrip (s : list N) : list N :=
  match s with
  | c :: s' => if py_isspace c then lstrip s' else s
  | [] => []
  end.

Definition strip (s : list N) : list N := reverse (lstrip (reverse (lstrip s))).

(** [s.replace(c, "")] for a one-character [c]. *)
Definition remove_char (c : N) (s : list N) : list N := filter (λ c', c' ≠ c) s.

Definition CR : N := 13.
Definition LF : N := 10.

(** ["Nan"] *)
Definition NAN : list N := [78; 97; 110]%N.

Definition _clean_str (str_to_clean : option (list N)) : list N :=
  match str_to_clean with
  | None => NAN
  | Some s =>
      if decide (s = []) then NAN
      else
        let output_str := remove_char CR s in
        let output_str := remove_char LF output_str in
        strip output_str
  end.

(** The code points of a text of 8-bit characters. *)
Definition code_points (s : string) : list N := N_of_ascii <$> chars s.

End Unicode.

(** * Properties *)

(** ** Indexing *)

Lemma py_index_Return {A} (l : list A) (i : Z) :
  0 ≤ i < Z.of_nat (length l) → ∃ x, py_index l i = Return x.
Proof.
  intros Hi. unfold py_index.
  destruct (Z.ltb_spec i 0) as [?|_]; [lia|].
  destruct (Z.leb_spec 0 i) as [_|?]; [|lia].
  destruct (Z.ltb_spec i (Z.of_nat (length l))) as [_|?]; [|lia].
  simpl. destruct (lookup_lt_is_Some_2 l (Z.to_nat i)) as [x Hx]; [lia|].
  rewrite Hx. by exists x.
Qed.

Lemma py_index_last_Return {A} (l : list A) :
  l ≠ [] → ∃ x, py_index l (-1) = Return x.
Proof.
  intros Hl. unfold py_index. simpl.
  assert (0 < length l)%nat by (destruct l; [done | simpl; lia]).
  destruct (Z.leb_spec 0 (Z.of_nat (length l) + -1)) as [_|?]; [|lia].
  destruct (Z.ltb_spec (Z.of_nat (length l) + -1) (Z.of_nat (length l))) as [_|?]; [|lia].
  simpl.
  destruct (lookup_lt_is_Some_2 l (Z.to_nat (Z.of_nat (length l) + -1))) as [x Hx]; [lia|].
  rewrite Hx. by exists x.
Qed.

Lemma py_index_not_OutOfFuel {A} (l : list A) (i : Z) : py_index l i ≠ OutOfFuel.
Proof. unfold py_index. repeat case_match; done. Qed.

(** ** The in-page search *)

Section SearchFacts.
Context {A : Type} `{Numbered A}.

(** The midpoint of a range the loop still works on lies strictly inside it. *)
Lemma midpoint_inside (low high : Z) :
  low < high - 1 → low < (low + high) `div` 2 < high.
Proof.
  intros Hlt.
  pose proof (Z.div_mod (low + high) 2) as Hdiv.
  pose proof (Z.mod_pos_bound (low + high) 2) as Hmod.
  lia.
Qed.

(** The in-page loop ends within as many passes as the range is wide. *)
Lemma bin_search_in_page_loop_terminates (page : list A) (val : Z) (fuel : nat) :
  ∀ low page_len,
    (Z.to_nat (page_len - low) ≤ fuel)%nat →
    bin_search_in_page_loop page val fuel low page_len ≠ OutOfFuel.
Proof.
  induction fuel as [|fuel IH]; intros low page_len Hfuel; simpl.
  - destruct (Z.ltb_spec low (page_len - 1)); [lia | done].
  - destruct (Z.ltb_spec low (page_len - 1)) as [Hlt|]; [|done].
    pose proof (midpoint_inside _ _ Hlt) as Hmid.
    destruct (py_index page ((low + page_len) `div` 2)) as [cur| |] eqn:Hcur;
      simpl; [|done|by apply py_index_not_OutOfFuel in Hcur].
    destruct (Z.eqb_spec val (number cur)); [done|].
    destruct (Z.ltb_spec val (number cur)); [apply IH; lia|].
    destruct (Z.ltb_spec (number cur) val); [apply IH; lia | lia].
Qed.

Lemma bin_search_in_page_terminates (page : list A) (page_len val : Z) :
  __bin_search_in_page page page_len val ≠ OutOfFuel.
Proof. apply bin_search_in_page_loop_terminates. lia. Qed.

(** While the upper bound stays within the page, the loop reads inside the
    page only, and answers with an offset between [low] and the bound. *)
Lemma bin_search_in_page_loop_in_bounds (page : list A) (val : Z) (fuel : nat) :
  ∀ low page_len,
    0 ≤ low → page_len ≤ Z.of_nat (length page) →
    (Z.to_nat (page_len - low) ≤ fuel)%nat →
    ∃ i, bin_search_in_page_loop page val fuel low page_len = Return i
         ∧ low ≤ i ≤ Z.max low page_len.
Proof.
  induction fuel as [|fuel IH]; intros low page_len Hlow Hlen Hfuel; simpl.
  - destruct (Z.ltb_spec low (page_len - 1)); [lia|]. exists low. split; [done | lia].
  - destruct (Z.ltb_spec low (page_len - 1)) as [Hlt|];
      [|exists low; split; [done | lia]].
    pose proof (midpoint_inside _ _ Hlt) as Hmid.
    destruct (py_index_Return page ((low + page_len) `div` 2)) as [cur ->]; [lia|].
    simpl.
    destruct (Z.eqb_spec val (number cur)); [eexists; split; [done | lia]|].
    destruct (Z.ltb_spec val (number cur)).
    { destruct (IH low ((low + page_len) `div` 2 - 1)) as (i & -> & Hi); [lia..|].
      exists i. split; [done | lia]. }
    destruct (Z.ltb_spec (number cur) val); [|lia].
    destruct (IH ((low + page_len) `div` 2 + 1) page_len) as (i & -> & Hi); [lia..|].
    exists i. split; [done | lia].
Qed.

(** Called with the actual length of the page, the in-page search raises
    nothing: every item it reads is on the page. *)
Lemma bin_search_in_page_actual_length (page : list A) (val : Z) :
  ∃ i, __bin_search_in_page page (Z.of_nat (length page)) val = Return i
       ∧ 0 ≤ i ≤ Z.of_nat (length page).
Proof.
  destruct (bin_search_in_page_loop_in_bounds page val
              (Z.to_nat (Z.of_nat (length page))) 0 (Z.of_nat (length page)))
    as (i & Hi & Hb); [lia..|].
  exists i. split; [done | lia].
Qed.
End SearchFacts.

(** ** The page search *)

Lemma get_page_nonempty {A} (page_len : Z) (paged_list : list A) (page : Z) :
  0 < page_len → 0 ≤ page → page * page_len < totalCount paged_list →
  get_page page_len paged_list page ≠ [].
Proof.
  unfold get_page, totalCount. intros Hlen Hpage Hlt Hnil.
  apply (f_equal length) in Hnil. rewrite length_take, length_drop in Hnil.
  simpl in Hnil. lia.
Qed.

(** Every page up to the last one holds an item. *)
Lemma pages_nonempty {A} (page_len : Z) (paged_list : list A) (page : Z) :
  0 < page_len → paged_list ≠ [] →
  0 ≤ page ≤ (totalCount paged_list - 1) `div` page_len →
  get_page page_len paged_list page ≠ [].
Proof.
  intros Hlen Hne Hpage. apply get_page_nonempty; [lia..|].
  assert (0 < totalCount paged_list)
    by (unfold totalCount; destruct paged_list; [done | simpl; lia]).
  pose proof (Z.mul_div_le (totalCount paged_list - 1) page_len Hlen). nia.
Qed.

Section PageSearchFacts.
Context {A : Type} `{Numbered A}.

(** The page loop ends within as many passes as the range is wide. *)
Lemma bin_search_in_list_loop_terminates (page_len : Z) (paged_list : list A)
    (val : Z) (fuel : nat) :
  ∀ low high,
    (Z.to_nat (high - low) ≤ fuel)%nat →
    bin_search_in_list_loop page_len paged_list val fuel low high ≠ OutOfFuel.
Proof.
  induction fuel as [|fuel IH]; intros low high Hfuel; simpl.
  - destruct (Z.ltb_spec low (high - 1)); [lia | done].
  - destruct (Z.ltb_spec low (high - 1)) as [Hlt|]; [|done].
    pose proof (midpoint_inside _ _ Hlt) as Hmid.
    destruct (py_index _ 0) as [first| |] eqn:Hfirst;
      simpl; [|done|by apply py_index_not_OutOfFuel in Hfirst].
    destruct (_get_page_last_item _ _ _) as [last| |] eqn:Hlast;
      simpl; [|done|by apply py_index_not_OutOfFuel in Hlast].
    destruct (Z.leb_spec (number first) val), (Z.leb_spec val (number last));
      simpl; try done.
    + destruct (Z.ltb_spec val (number first)); [lia|].
      destruct (Z.ltb_spec (number last) val); [apply IH; lia | lia].
    + destruct (Z.ltb_spec val (number first)); [apply IH; lia | lia].
    + destruct (Z.ltb_spec val (number first)); [apply IH; lia | lia].
Qed.

Lemma bin_search_in_list_terminates (page_len : Z) (paged_list : list A)
    (last_page_index val : Z) :
  __bin_search_in_list page_len paged_list last_page_index val ≠ OutOfFuel.
Proof. apply bin_search_in_list_loop_terminates. lia. Qed.

(** Over pages that all hold an item the loop raises nothing and answers
    with a page between [low] and [high]. *)
Lemma bin_search_in_list_loop_finds_page (page_len : Z) (paged_list : list A)
    (val last_page_index : Z) (fuel : nat) :
  (∀ page, 0 ≤ page ≤ last_page_index → get_page page_len paged_list page ≠ []) →
  ∀ low high,
    0 ≤ low → high ≤ last_page_index →
    (Z.to_nat (high - low) ≤ fuel)%nat →
    ∃ page, bin_search_in_list_loop page_len paged_list val fuel low high = Return page
            ∧ low ≤ page ≤ Z.max low high.
Proof.
  intros Hpages.
  induction fuel as [|fuel IH]; intros low high Hlow Hhigh Hfuel; simpl.
  - destruct (Z.ltb_spec low (high - 1)); [lia|]. exists low. split; [done | lia].
  - destruct (Z.ltb_spec low (high - 1)) as [Hlt|];
      [|exists low; split; [done | lia]].
    pose proof (midpoint_inside _ _ Hlt) as Hmid.
    set (mid := (low + high) `div` 2) in *.
    assert (get_page page_len paged_list mid ≠ []) as Hne by (apply Hpages; lia).
    destruct (py_index_Return (get_page page_len paged_list mid) 0) as [first ->].
    { destruct (get_page page_len paged_list mid); [done | simpl; lia]. }
    unfold _get_page_last_item.
    destruct (py_index_last_Return _ Hne) as [last ->]. simpl.
    destruct (Z.leb_spec (number first) val), (Z.leb_spec val (number last));
      simpl; try (exists mid; split; [done | lia]).
    + destruct (Z.ltb_spec val (number first)); [lia|].
      destruct (Z.ltb_spec (number last) val); [|lia].
      destruct (IH (mid + 1) high) as (page & -> & ?); [lia..|].
      exists page. split; [done | lia].
    + destruct (Z.ltb_spec val (number first)); [|lia].
      destruct (IH low (mid - 1)) as (page & -> & ?); [lia..|].
      exists page. split; [done | lia].
    + destruct (Z.ltb_spec val (number first)); [|lia].
      destruct (IH low (mid - 1)) as (page & -> & ?); [lia..|].
      exists page. split; [done | lia].
Qed.

(** On a collection that is not empty the page search always answers with
    a page of the collection: there is no not-found outcome. *)
Lemma bin_search_in_list_total (page_len : Z) (paged_list : list A) (val : Z) :
  0 < page_len → paged_list ≠ [] →
  let last_page_index := (totalCount paged_list - 1) `div` page_len in
  ∃ page, __bin_search_in_list page_len paged_list last_page_index val = Return page
          ∧ 0 ≤ page ≤ last_page_index.
Proof.
  intros Hlen Hne last_page_index.
  assert (0 ≤ last_page_index).
  { apply Z.div_pos; [|done]. unfold totalCount.
    destruct paged_list; [done | simpl; lia]. }
  destruct (bin_search_in_list_loop_finds_page page_len paged_list val
              last_page_index (Z.to_nat last_page_index)) with (low := 0)
    (high := last_page_index) as (page & Hp & Hb); [|lia..|].
  { intros page Hpage. by apply pages_nonempty. }
  exists page. split; [done | lia].
Qed.
End PageSearchFacts.

(** ** The searches on small collections *)

(** C1: on a page holding the numbers 1, 2, 3, 4 the in-page search for the
    number 2, which sits at offset 1, answers offset 0, the place of number 1:
    the first probe reads offset 2, and the upper bound is then set to
    [mid - 1 = 1], which ends the loop before offset 1 is looked at.  The
    claim asks for offset 1. *)
Theorem bin_search_in_page_skips_present_number :
  let page := issues_upto 4 in
  number <$> page = [1; 2; 3; 4]
  ∧ number <$> py_index page 1 = Return 2
  ∧ __bin_search_in_page page (Z.of_nat (length page)) 2 = Return 0.
Proof. vm_compute. repeat split. Qed.

(** C2: four records numbered 1 to 4 in pages of two make the pages [1, 2]
    and [3, 4].  The page search for number 4 answers page 0 although page 1
    brackets it: with [low = 0] and [high = 1] the loop condition
    [low < high - 1] fails at once and [low] is returned. *)
Theorem bin_search_in_list_misses_bracketing_page :
  let paged_list := issues_upto 4 in
  let last_page_index := (totalCount paged_list - 1) `div` 2 in
  last_page_index = 1
  ∧ number <$> get_page 2 paged_list 0 = [1; 2]
  ∧ number <$> get_page 2 paged_list 1 = [3; 4]
  ∧ __bin_search_in_list 2 paged_list last_page_index 4 = Return 0.
Proof. vm_compute. repeat split. Qed.

(** C7: one hundred records numbered 1 to 100 in pages of thirty, range
    [45, 45]: the page search answers page 1, which holds the records 31 to
    60, the in-page search answers offset 14, and both indices of the result
    are 44 = 14 + 1 * 30. *)
Theorem range_45_45_resolves_to_44 :
  let paged_list := issues_upto 100 in
  let last_page_index := (totalCount paged_list - 1) `div` 30 in
  __bin_search_in_list 30 paged_list last_page_index 45 = Return 1
  ∧ number <$> get_page 30 paged_list 1 = seqZ 31 30
  ∧ __bin_search_in_page (get_page 30 paged_list 1) 30 45 = Return 14
  ∧ item_list_index 30 paged_list last_page_index 45 = Return (14 + 1 * 30)
  ∧ _get_api_item_indices 30 paged_list [45; 45] = Return [44; 44].
Proof. vm_compute. repeat split. Qed.

(** C9: a collection of three records is one page of three, shorter than the
    configured page length of thirty.  [_get_api_item_indices] hands the
    in-page search the configured length, the first probe reads offset 15 of
    a page of three and [IndexError] is raised; handed the length of the page
    itself, the same search answers offset 1. *)
Theorem short_final_page_raises_IndexError :
  let paged_list := issues_upto 3 in
  let page := get_page 30 paged_list 0 in
  length page = 3%nat
  ∧ __bin_search_in_list 30 paged_list ((totalCount paged_list - 1) `div` 30) 2 = Return 0
  ∧ __bin_search_in_page page 30 2 = Raise IndexError
  ∧ _get_api_item_indices 30 paged_list [2; 2] = Raise IndexError
  ∧ __bin_search_in_page page (Z.of_nat (length page)) 2 = Return 1.
Proof. vm_compute. repeat split. Qed.

(** ** Clamping of the range *)

(** A boundary above the highest number is resolved as the highest number. *)
Lemma get_api_item_indices_clamps_high {A} `{Numbered A} (page_len : Z)
    (paged_list : list A) (low high : Z) (last : A) :
  _get_page_last_item page_len paged_list
    ((totalCount paged_list - 1) `div` page_len) = Return last →
  number last < high →
  _get_api_item_indices page_len paged_list [low; high]
  = _get_api_item_indices page_len paged_list [low; number last].
Proof.
  intros Hlast Hhigh. unfold _get_api_item_indices.
  destruct (page_len =? 0); [done|]. rewrite Hlast. simpl.
  by rewrite (Z.min_r high) by lia; rewrite (Z.min_r (number last)) by lia.
Qed.

(** C5: whatever the collection and the low end of the range, a high end
    above the number of the last record of the collection gives the same end
    index as a high end equal to that number. *)
Theorem high_above_maximum_same_end_index {A} `{Numbered A} (page_len : Z)
    (paged_list : list A) (low high : Z) (last : A) :
  _get_page_last_item page_len paged_list
    ((totalCount paged_list - 1) `div` page_len) = Return last →
  number last < high →
  end_index (_get_api_item_indices page_len paged_list [low; high])
  = end_index (_get_api_item_indices page_len paged_list [low; number last]).
Proof.
  intros Hlast Hhigh.
  by rewrite (get_api_item_indices_clamps_high _ _ _ _ _ Hlast Hhigh).
Qed.

Lemma high_above_maximum_same_end_index_witness :
  _get_page_last_item 30 (issues_upto 100)
    ((totalCount (issues_upto 100) - 1) `div` 30) = Return (mk_issue 100)
  ∧ number (mk_issue 100) < 500
  ∧ end_index (_get_api_item_indices 30 (issues_upto 100) [1; 500])
    = end_index (_get_api_item_indices 30 (issues_upto 100) [1; number (mk_issue 100)]).
Proof.
  split; [reflexivity|]. split; [reflexivity|].
  apply (high_above_maximum_same_end_index 30 (issues_upto 100) 1 500 (mk_issue 100));
    reflexivity.
Defined.

(** ** Merging dictionaries *)

Lemma merge_dicts_lookup {V} (base to_merge : gmap string V) (k : string) :
  _merge_dicts base to_merge !! k
  = match to_merge !! k with Some v => Some v | None => base !! k end.
Proof.
  unfold _merge_dicts. rewrite lookup_union.
  destruct (to_merge !! k), (base !! k); done.
Qed.

Lemma merge_dicts_dom {V} (base to_merge : gmap string V) :
  dom (_merge_dicts base to_merge) = dom base ∪ dom to_merge.
Proof. unfold _merge_dicts. rewrite dom_union_L. apply (comm_L _). Qed.

(** C10: [_merge_dicts] hands back a dictionary object that did not exist
    before the call; its keys are those of [base] and of [to_merge]
    together, a key of [to_merge] carries the value [to_merge] gives it,
    any other key the value [base] gives it; and every dictionary object
    that existed before the call, the two arguments among them, holds after
    the call what it held before. *)
Theorem merge_dicts_new_union_right_biased {V} (heap : list (gmap string V))
    (base to_merge : nat) (b t : gmap string V) :
  heap !! base = Some b →
  heap !! to_merge = Some t →
  ∃ heap' result merged,
    call_merge_dicts heap base to_merge = Some (heap', result)
    ∧ heap !! result = None
    ∧ heap' !! result = Some merged
    ∧ dom merged = dom b ∪ dom t
    ∧ (∀ k v, t !! k = Some v → merged !! k = Some v)
    ∧ (∀ k, t !! k = None → merged !! k = b !! k)
    ∧ heap' !! base = Some b
    ∧ heap' !! to_merge = Some t
    ∧ (∀ a d, heap !! a = Some d → heap' !! a = Some d).
Proof.
  intros Hb Ht. exists (heap ++ [_merge_dicts b t]), (length heap), (_merge_dicts b t).
  unfold call_merge_dicts. rewrite Hb, Ht. simpl.
  assert (∀ a d, heap !! a = Some d → (heap ++ [_merge_dicts b t]) !! a = Some d)
    as Hkeep by (intros a d Ha; by apply lookup_app_l_Some).
  repeat split; auto.
  - by apply lookup_ge_None_2.
  - rewrite lookup_app_r by done. by rewrite Nat.sub_diag.
  - apply merge_dicts_dom.
  - intros k v Hk. by rewrite merge_dicts_lookup, Hk.
  - intros k Hk. by rewrite merge_dicts_lookup, Hk.
Qed.

Lemma merge_dicts_new_union_right_biased_witness :
  let b : gmap string Z := {["a" := 1; "b" := 2]} in
  let t : gmap string Z := {["b" := 3; "c" := 4]} in
  [b; t] !! 0%nat = Some b
  ∧ [b; t] !! 1%nat = Some t
  ∧ ∃ heap' result merged,
      call_merge_dicts [b; t] 0 1 = Some (heap', result)
      ∧ [b; t] !! result = None
      ∧ heap' !! result = Some merged
      ∧ dom merged = dom b ∪ dom t
      ∧ (∀ k v, t !! k = Some v → merged !! k = Some v)
      ∧ (∀ k, t !! k = None → merged !! k = b !! k)
      ∧ heap' !! 0%nat = Some b
      ∧ heap' !! 1%nat = Some t
      ∧ (∀ a d, [b; t] !! a = Some d → heap' !! a = Some d).
Proof.
  intros b t. split; [reflexivity|]. split; [reflexivity|].
  apply (merge_dicts_new_union_right_biased [b; t] 0 1 b t); reflexivity.
Defined.

(** ** Dictionary comprehensions *)

Lemma dict_comprehension_lookup {A} (dispatch : gmap string (A → value)) (obj : A)
    (fields : list string) :
  ∀ acc d,
    dict_comprehension dispatch obj fields acc = Return d →
    ∀ k, d !! k = if decide (k ∈ fields)
                  then (λ getter, getter obj) <$> dispatch !! k
                  else acc !! k.
Proof.
  induction fields as [|f fields IH]; intros acc d Hd k; simpl in Hd.
  - injection Hd as <-. by rewrite decide_False by apply not_elem_of_nil.
  - destruct (dispatch !! f) as [getter|] eqn:Hf; [|done].
    rewrite (IH _ _ Hd k).
    destruct (decide (k = f)) as [->|Hne].
    + rewrite (decide_True (P := f ∈ f :: fields)) by apply list_elem_of_here.
      destruct (decide (f ∈ fields)); [done|].
      by rewrite lookup_insert_eq, Hf.
    + rewrite lookup_insert_ne by done.
      destruct (decide (k ∈ fields)).
      * by rewrite decide_True by (by apply list_elem_of_further).
      * rewrite decide_False; [done|]. rewrite elem_of_cons. tauto.
Qed.

Lemma dict_comprehension_Return {A} (dispatch : gmap string (A → value)) (obj : A)
    (fields : list string) :
  (∀ f, f ∈ fields → f ∈ dom dispatch) →
  ∀ acc, ∃ d, dict_comprehension dispatch obj fields acc = Return d.
Proof.
  induction fields as [|f fields IH]; intros Hvalid acc; simpl.
  - by eexists.
  - destruct (dispatch !! f) as [getter|] eqn:Hf.
    + apply IH. intros f' Hf'. by apply Hvalid, list_elem_of_further.
    + assert (f ∈ dom dispatch) as Hdom by apply Hvalid, list_elem_of_here.
      apply elem_of_dom in Hdom as [? ?]. congruence.
Qed.

Lemma dict_comprehension_dom {A} (dispatch : gmap string (A → value)) (obj : A)
    (fields : list string) (d : gmap string value) :
  dict_comprehension dispatch obj fields ∅ = Return d →
  (∀ f, f ∈ fields → f ∈ dom dispatch) →
  dom d = list_to_set fields.
Proof.
  intros Hd Hvalid. apply set_eq. intros k.
  rewrite elem_of_dom, (dict_comprehension_lookup _ _ _ _ _ Hd k), elem_of_list_to_set.
  destruct (decide (k ∈ fields)) as [Hk|Hk].
  - destruct (proj1 (elem_of_dom _ _) (Hvalid k Hk)) as [getter ->].
    simpl. split; [done | by eexists].
  - rewrite lookup_empty. split; [by intros [? ?] | done].
Qed.

(** ** The entry of a pull request *)

Lemma commit_dispatch_keys (f : string) :
  f ∈ dom COMMIT_CMD_DISPATCH →
  f ∈ ["commit_author_name"; "committer"; "commit_date"; "commit_files";
       "commit_message"; "commit_sha"].
Proof.
  unfold COMMIT_CMD_DISPATCH. rewrite dom_list_to_map_L, elem_of_list_to_set.
  by simpl.
Qed.

(** No name is a key of both the pull-request table and the commit table. *)
Lemma commit_field_not_pr_field (f : string) :
  f ∈ dom COMMIT_CMD_DISPATCH → PR_CMD_DISPATCH !! f = None ∧ f ≠ "__pr_merged".
Proof.
  intros Hf%commit_dispatch_keys.
  repeat (apply elem_of_cons in Hf as [->|Hf]; [by split|]).
  by apply elem_of_nil in Hf.
Qed.

(** C6: when the [try] block of [get_pr_data] gets hold of a pull request,
    then (1) if it is merged and its last commit touched no file, the entry
    stored under its number has exactly the keys ["__pr_merged"] and the
    configured pull-request fields, each with the value its getter gives, and
    no key of the commit table; (2) if it is not merged and the configured
    state is ["closed"], the entry is [{"__pr_merged": False}]. *)
Theorem pr_entry_commit_inclusion (c : cfg) (pr_paged_list : list pull_request)
    (start_val : Z) (w w' : world) (cur_pr : pull_request) :
  paged_list_getitem pr_paged_list start_val w = (Return cur_pr, w') →
  (pr_merged cur_pr = true →
   (∀ f, f ∈ cfg_pr_fields c → f ∈ dom PR_CMD_DISPATCH) →
   ∀ last_commit,
     get_last_commit cur_pr = Return last_commit →
     files last_commit = [] →
     ∃ cur_entry,
       pr_try c pr_paged_list start_val w
       = (Return {[pretty (number cur_pr) := cur_entry]}, w')
       ∧ cur_entry !! "__pr_merged" = Some (VBool true)
       ∧ (∀ f getter, f ∈ cfg_pr_fields c → PR_CMD_DISPATCH !! f = Some getter →
                      cur_entry !! f = Some (getter cur_pr))
       ∧ dom cur_entry = {["__pr_merged"]} ∪ list_to_set (cfg_pr_fields c)
       ∧ (∀ f, f ∈ dom COMMIT_CMD_DISPATCH → cur_entry !! f = None))
  ∧ (pr_merged cur_pr = false →
     cfg_state c = "closed" →
     pr_try c pr_paged_list start_val w
     = (Return {[pretty (number cur_pr) := {["__pr_merged" := VBool false]}]}, w')).
Proof.
  intros Hget. unfold pr_try. rewrite Hget. split.
  - intros Hmerged Hvalid last_commit Hlast Hfiles.
    destruct (dict_comprehension_Return PR_CMD_DISPATCH cur_pr _ Hvalid ∅)
      as [data Hdata].
    pose proof (dict_comprehension_lookup _ _ _ _ _ Hdata) as Hlookup.
    exists (_merge_dicts {["__pr_merged" := VBool true]} data).
    unfold pr_entry. rewrite Hmerged, Hdata. simpl. rewrite Hlast. simpl.
    rewrite Hfiles. simpl. repeat split.
    + rewrite merge_dicts_lookup, Hlookup.
      destruct (decide ("__pr_merged" ∈ cfg_pr_fields c)); [|done].
      change (PR_CMD_DISPATCH !! "__pr_merged") with (Some _get_pr_merged).
      simpl. unfold _get_pr_merged. by rewrite Hmerged.
    + intros f getter Hf Hgetter.
      by rewrite merge_dicts_lookup, Hlookup, decide_True, Hgetter.
    + rewrite merge_dicts_dom, dom_singleton_L.
      by rewrite (dict_comprehension_dom _ _ _ _ Hdata Hvalid).
    + intros f [Hpr Hne]%commit_field_not_pr_field.
      rewrite merge_dicts_lookup, Hlookup, Hpr, lookup_empty.
      rewrite lookup_singleton_ne by done. by destruct (decide _).
  - intros Hmerged Hstate. unfold pr_entry. by rewrite Hmerged, Hstate.
Qed.

Lemma pr_entry_commit_inclusion_witness :
  paged_list_getitem sample_prs 0 (fresh_world [])
  = (Return (mk_pr 1 true [readme_commit; empty_commit]), fresh_world [])
  ∧ paged_list_getitem sample_prs 1 (fresh_world [])
    = (Return (mk_pr 2 false [readme_commit]), fresh_world [])
  ∧ (∃ cur_entry,
       pr_try sample_cfg sample_prs 0 (fresh_world [])
       = (Return {["1" := cur_entry]}, fresh_world [])
       ∧ cur_entry !! "__pr_merged" = Some (VBool true)
       ∧ (∀ f getter, f ∈ cfg_pr_fields sample_cfg →
                      PR_CMD_DISPATCH !! f = Some getter →
                      cur_entry !! f
                      = Some (getter (mk_pr 1 true [readme_commit; empty_commit])))
       ∧ dom cur_entry = {["__pr_merged"]} ∪ list_to_set (cfg_pr_fields sample_cfg)
       ∧ (∀ f, f ∈ dom COMMIT_CMD_DISPATCH → cur_entry !! f = None))
  ∧ pr_try sample_cfg sample_prs 1 (fresh_world [])
    = (Return {["2" := {["__pr_merged" := VBool false]}]}, fresh_world []).
Proof.
  split; [reflexivity|]. split; [reflexivity|]. split.
  - apply (proj1 (pr_entry_commit_inclusion sample_cfg sample_prs 0
                    (fresh_world []) (fresh_world [])
                    (mk_pr 1 true [readme_commit; empty_commit]) eq_refl)
             eq_refl) with (last_commit := empty_commit); [|reflexivity..].
    intros f Hf. apply elem_of_dom.
    repeat (apply elem_of_cons in Hf as [->|Hf]; [by eexists|]).
    by apply elem_of_nil in Hf.
  - apply (proj2 (pr_entry_commit_inclusion sample_cfg sample_prs 1
                    (fresh_world []) (fresh_world [])
                    (mk_pr 2 false [readme_commit]) eq_refl));
      reflexivity.
Defined.

(** ** The shape of what the getters return *)

Lemma clean_str_placeholder (s : option string) :
  missing_text s → _clean_str s = "Nan".
Proof. by intros [-> | ->]. Qed.

Lemma commit_files_loop_strings (file_list : list file) :
  ∀ acc, Forall is_str acc.1.1.1.1.1 →
         Forall is_str (foldl commit_files_step acc file_list).1.1.1.1.1.
Proof.
  induction file_list as [|f file_list IH]; intros acc Hacc; [done|].
  simpl. apply IH. destruct acc as [[[[[names ?] ?] ?] ?] ?]. simpl in *.
  apply Forall_app. split; [done|]. by apply Forall_singleton.
Qed.

Lemma get_commit_files_shape (api_obj : commit) :
  ∃ d, _get_commit_files api_obj = VDict d ∧ commit_files_shape d.
Proof.
  unfold _get_commit_files.
  pose proof (commit_files_loop_strings (files api_obj) ([], 0, 0, "", 0, "")) as Hstr.
  destruct (foldl _ _ _) as [[[[[names adds] chgs] patch_text] rems] status_str].
  simpl in *. eexists. split; [done|]. do 6 eexists. split; [done|]. by apply Hstr.
Qed.

Lemma closed_time_is_string `{ApiObj A} (api_obj : A) :
  is_str (_get_closed_time api_obj).
Proof. unfold _get_closed_time. by destruct (closed_at api_obj). Qed.

Lemma issue_comments_is_string (issue_obj : issue) :
  is_str (_get_issue_comments issue_obj).
Proof. unfold _get_issue_comments. by destruct (decide _). Qed.

(** The keys of the three tables, each with its getter. *)
Lemma commit_dispatch_cases (f : string) (getter : commit → value) :
  COMMIT_CMD_DISPATCH !! f = Some getter →
  (f, getter) ∈ [("commit_author_name", _get_commit_auth_name);
                 ("committer", _get_commit_committer);
                 ("commit_date", _get_commit_auth_date);
                 ("commit_files", _get_commit_files);
                 ("commit_message", _get_commit_msg);
                 ("commit_sha", _get_commit_sha)].
Proof. apply elem_of_list_to_map_2. Qed.

Lemma issue_dispatch_cases (f : string) (getter : issue → value) :
  ISSUE_CMD_DISPATCH !! f = Some getter →
  (f, getter) ∈ [("issue_body", _get_body : issue → value);
                 ("issue_closed", _get_closed_time);
                 ("issue_comments", _get_issue_comments);
                 ("issue_title", _get_title);
                 ("issue_userlogin", _get_userlogin);
                 ("issue_username", _get_username)].
Proof. apply elem_of_list_to_map_2. Qed.

Lemma pr_dispatch_cases (f : string) (getter : pull_request → value) :
  PR_CMD_DISPATCH !! f = Some getter →
  (f, getter) ∈ [("pr_body", _get_body : pull_request → value);
                 ("pr_closed", _get_closed_time);
                 ("__pr_merged", _get_pr_merged);
                 ("pr_title", _get_title);
                 ("pr_userlogin", _get_userlogin);
                 ("pr_username", _get_username)].
Proof. apply elem_of_list_to_map_2. Qed.

Lemma commit_getter_shape (f : string) (getter : commit → value) (api_obj : commit) :
  COMMIT_CMD_DISPATCH !! f = Some getter →
  entry_value_shape f (getter api_obj) ∧ getter api_obj ≠ VNone.
Proof.
  intros Hf%commit_dispatch_cases.
  repeat (apply elem_of_cons in Hf as [Heq|Hf];
          [injection Heq as -> ->; try done|]).
  - destruct (get_commit_files_shape api_obj) as (d & Hd & Hshape).
    split; [by exists d | by rewrite Hd].
  - by apply elem_of_nil in Hf.
Qed.

Lemma pr_getter_shape (f : string) (getter : pull_request → value)
    (api_obj : pull_request) :
  PR_CMD_DISPATCH !! f = Some getter →
  entry_value_shape f (getter api_obj) ∧ getter api_obj ≠ VNone.
Proof.
  intros Hf%pr_dispatch_cases.
  repeat (apply elem_of_cons in Hf as [Heq|Hf];
          [injection Heq as -> ->; try done|]).
  - pose proof (closed_time_is_string api_obj) as Hstr.
    split; [exact Hstr | by destruct (_get_closed_time api_obj)].
  - split; [by eexists | done].
  - by apply elem_of_nil in Hf.
Qed.

Lemma issue_getter_shape (f : string) (getter : issue → value) (api_obj : issue) :
  ISSUE_CMD_DISPATCH !! f = Some getter →
  entry_value_shape f (getter api_obj) ∧ getter api_obj ≠ VNone.
Proof.
  intros Hf%issue_dispatch_cases.
  repeat (apply elem_of_cons in Hf as [Heq|Hf];
          [injection Heq as -> ->; try done|]).
  - pose proof (closed_time_is_string api_obj) as Hstr.
    split; [exact Hstr | by destruct (_get_closed_time api_obj)].
  - pose proof (issue_comments_is_string api_obj) as Hstr.
    split; [exact Hstr | by destruct (_get_issue_comments api_obj)].
  - by apply elem_of_nil in Hf.
Qed.

(** ** Where the values of an entry come from *)

Lemma dict_comprehension_value {A} (dispatch : gmap string (A → value)) (obj : A)
    (fields : list string) (d : gmap string value) (f : string) (v : value) :
  dict_comprehension dispatch obj fields ∅ = Return d →
  d !! f = Some v →
  ∃ getter, dispatch !! f = Some getter ∧ v = getter obj.
Proof.
  intros Hd. rewrite (dict_comprehension_lookup _ _ _ _ _ Hd f).
  destruct (decide (f ∈ fields)); [|by rewrite lookup_empty].
  destruct (dispatch !! f) as [getter|]; [|done].
  simpl. intros [= <-]. by exists getter.
Qed.

(** A value of the entry of a pull request is the merged flag, or what a
    getter of the pull-request table makes of the pull request, or what a
    getter of the commit table makes of its last commit. *)
Lemma pr_entry_value (c : cfg) (cur_pr : pull_request) (d : gmap string value)
    (f : string) (v : value) :
  pr_entry c cur_pr = Return d →
  d !! f = Some v →
  (f = "__pr_merged" ∧ v = VBool (pr_merged cur_pr))
  ∨ (∃ getter, PR_CMD_DISPATCH !! f = Some getter ∧ v = getter cur_pr)
  ∨ (∃ last_commit getter,
       get_last_commit cur_pr = Return last_commit
       ∧ COMMIT_CMD_DISPATCH !! f = Some getter ∧ v = getter last_commit).
Proof.
  assert (∀ f v, ({["__pr_merged" := VBool (pr_merged cur_pr)]} : gmap string value) !! f
                 = Some v → f = "__pr_merged" ∧ v = VBool (pr_merged cur_pr)) as Hflag.
  { by intros f' v' [<- <-]%lookup_singleton_Some. }
  unfold pr_entry.
  destruct (pr_merged cur_pr || bool_decide (cfg_state c = "open"));
    [|intros [= <-] Hf; left; by apply Hflag].
  destruct (dict_comprehension PR_CMD_DISPATCH _ _ _) as [data| |] eqn:Hdata; [|done..].
  simpl. destruct (get_last_commit cur_pr) as [last_commit| |]; [|done..]. simpl.
  assert (∀ v, _merge_dicts {["__pr_merged" := VBool (pr_merged cur_pr)]} data !! f
               = Some v →
               (f = "__pr_merged" ∧ v = VBool (pr_merged cur_pr))
               ∨ (∃ getter, PR_CMD_DISPATCH !! f = Some getter ∧ v = getter cur_pr))
    as Hpr.
  { intros v'. rewrite merge_dicts_lookup.
    destruct (data !! f) as [v''|] eqn:Hf; [|left; by apply Hflag].
    intros [= <-]. right. by apply (dict_comprehension_value _ _ _ _ _ _ Hdata). }
  destruct (0 <? _);
    [|intros [= <-] Hf; destruct (Hpr v Hf) as [?|?]; [by left | by right; left]].
  destruct (dict_comprehension COMMIT_CMD_DISPATCH _ _ _) as [cdata| |] eqn:Hcdata;
    [|done..].
  simpl. intros [= <-]. rewrite merge_dicts_lookup.
  destruct (cdata !! f) as [v'|] eqn:Hf.
  - intros [= <-]. right. right.
    destruct (dict_comprehension_value _ _ _ _ _ _ Hcdata Hf) as (getter & Hg & ->).
    by exists last_commit, getter.
  - intros Hv. destruct (Hpr v Hv) as [?|?]; [by left | by right; left].
Qed.

Lemma pr_entry_flag (c : cfg) (cur_pr : pull_request) (d : gmap string value) :
  pr_entry c cur_pr = Return d →
  d !! "__pr_merged" = Some (VBool (pr_merged cur_pr)).
Proof.
  unfold pr_entry.
  destruct (pr_merged cur_pr || bool_decide (cfg_state c = "open"));
    [|by intros [= <-]].
  destruct (dict_comprehension PR_CMD_DISPATCH _ _ _) as [data| |] eqn:Hdata; [|done..].
  simpl. destruct (get_last_commit cur_pr) as [last_commit| |]; [|done..]. simpl.
  assert (_merge_dicts {["__pr_merged" := VBool (pr_merged cur_pr)]} data
          !! "__pr_merged" = Some (VBool (pr_merged cur_pr))) as Hpr.
  { rewrite merge_dicts_lookup.
    destruct (data !! "__pr_merged") as [v|] eqn:Hf; [|done].
    destruct (dict_comprehension_value _ _ _ _ _ _ Hdata Hf) as (getter & Hg & ->).
    by getter_is Hg _get_pr_merged. }
  destruct (0 <? _); [|by intros [= <-]].
  destruct (dict_comprehension COMMIT_CMD_DISPATCH _ _ _) as [cdata| |] eqn:Hcdata;
    [|done..].
  simpl. intros [= <-]. rewrite merge_dicts_lookup.
  destruct (cdata !! "__pr_merged") as [v|] eqn:Hf; [|done].
  by destruct (dict_comprehension_value _ _ _ _ _ _ Hcdata Hf) as (getter & Hg & _).
Qed.

Lemma issue_item_data_entry (c : cfg) (cur_issue : issue) (d : gmap string value) :
  issue_item_data c cur_issue = Return d → issue_entry_of cur_issue d.
Proof.
  intros Hd.
  assert (∀ f v, d !! f = Some v →
                 ∃ getter, ISSUE_CMD_DISPATCH !! f = Some getter
                           ∧ v = getter cur_issue) as Hvalue.
  { intros f v. by apply (dict_comprehension_value _ _ _ _ _ _ Hd). }
  split.
  { intros f v (getter & Hg & ->)%Hvalue. by apply issue_getter_shape. }
  repeat split; intros v (getter & Hg & ->)%Hvalue.
  - getter_is Hg (_get_body : issue → value).
    intros Hmiss. unfold _get_body. by rewrite clean_str_placeholder.
  - getter_is Hg (_get_username : issue → value).
    intros Hmiss. unfold _get_username. by rewrite clean_str_placeholder.
  - getter_is Hg (_get_userlogin : issue → value).
    intros Hmiss. unfold _get_userlogin. by rewrite clean_str_placeholder.
  - getter_is Hg (_get_closed_time : issue → value).
    intros Hclosed. unfold _get_closed_time. by rewrite Hclosed.
  - getter_is Hg _get_issue_comments.
    intros Hnone. unfold _get_issue_comments. by rewrite Hnone.
  - by getter_is Hg (_get_title : issue → value).
Qed.

Lemma pr_entry_entry (c : cfg) (cur_pr : pull_request) (d : gmap string value) :
  pr_entry c cur_pr = Return d → pr_entry_of cur_pr d.
Proof.
  intros Hd.
  pose proof (λ f v, pr_entry_value c cur_pr d f v Hd) as Hvalue.
  assert (∀ f v getter, PR_CMD_DISPATCH !! f = Some getter → f ≠ "__pr_merged" →
                        COMMIT_CMD_DISPATCH !! f = None →
                        d !! f = Some v → v = getter cur_pr) as Hpr.
  { intros f v getter Hg Hne Hc
      [[? _]|[(g & Hg' & ->)|(lc & g & _ & Hg' & _)]]%Hvalue; congruence. }
  split.
  { intros f v [[-> ->]|[(g & Hg & ->)|(lc & g & _ & Hg & ->)]]%Hvalue.
    - split; [by eexists | done].
    - by apply pr_getter_shape.
    - by apply commit_getter_shape. }
  split; [by apply (pr_entry_flag c)|].
  repeat split.
  - intros v Hv Hmiss. rewrite (Hpr "pr_body" v _get_body eq_refl ltac:(done) eq_refl Hv).
    unfold _get_body. by rewrite clean_str_placeholder.
  - intros v Hv Hmiss. rewrite (Hpr "pr_username" v _get_username eq_refl ltac:(done) eq_refl Hv).
    unfold _get_username. by rewrite clean_str_placeholder.
  - intros v Hv Hmiss. rewrite (Hpr "pr_userlogin" v _get_userlogin eq_refl ltac:(done) eq_refl Hv).
    unfold _get_userlogin. by rewrite clean_str_placeholder.
  - intros v Hv Hclosed.
    rewrite (Hpr "pr_closed" v _get_closed_time eq_refl ltac:(done) eq_refl Hv).
    unfold _get_closed_time. by rewrite Hclosed.
  - intros v Hv. by rewrite (Hpr "pr_title" v _get_title eq_refl ltac:(done) eq_refl Hv).
  - intros v last_commit
      [[? _]|[(g & Hg & _)|(lc & g & Hlc & Hg & ->)]]%Hvalue Hlast Hmiss; [done..|].
    getter_is Hg _get_commit_msg. rewrite Hlast in Hlc. injection Hlc as <-.
    unfold _get_commit_msg. by rewrite clean_str_placeholder.
Qed.

(** ** The extraction loop *)

Lemma py_index_elem_of {A} (l : list A) (i : Z) (x : A) :
  py_index l i = Return x → x ∈ l.
Proof.
  unfold py_index. destruct (_ && _); [|done].
  destruct (l !! _) as [y|] eqn:Hy; [|done].
  intros [= <-]. by apply list_elem_of_lookup_2 in Hy.
Qed.

Lemma paged_list_getitem_elem_of {A} (paged_list : list A) (index : Z)
    (w w' : world) (x : A) :
  paged_list_getitem paged_list index w = (Return x, w') → x ∈ paged_list.
Proof.
  unfold paged_list_getitem.
  destruct (limits w) as [|[] rest]; intros [= Hx _]; try done;
    by apply py_index_elem_of in Hx.
Qed.

Lemma paged_list_getitem_written {A} (paged_list : list A) (index : Z)
    (w w' : world) (r : outcome A) :
  paged_list_getitem paged_list index w = (r, w') → written w' = written w.
Proof.
  unfold paged_list_getitem. destruct (limits w) as [|[] rest]; by intros [= <- <-].
Qed.

Lemma issues_try_written (c : cfg) (issues_paged_list : list issue) (i : Z)
    (w w' : world) r :
  issues_try c issues_paged_list i w = (r, w') → written w' = written w.
Proof.
  unfold issues_try.
  destruct (paged_list_getitem _ _ _) as [[cur|e|] w1] eqn:Hget;
    intros [= <- <-]; by apply paged_list_getitem_written in Hget.
Qed.

Lemma pr_try_written (c : cfg) (pr_paged_list : list pull_request) (i : Z)
    (w w' : world) r :
  pr_try c pr_paged_list i w = (r, w') → written w' = written w.
Proof.
  unfold pr_try.
  destruct (paged_list_getitem _ _ _) as [[cur|e|] w1] eqn:Hget;
    intros [= <- <-]; by apply paged_list_getitem_written in Hget.
Qed.

Lemma issues_try_entries (c : cfg) (issues_paged_list : list issue) (i : Z)
    (w w' : world) (cur_entry : gmap string (gmap string value)) :
  issues_try c issues_paged_list i w = (Return cur_entry, w') →
  ∀ num entry,
    cur_entry !! num = Some entry →
    written_of issue_entry_of issues_paged_list num entry.
Proof.
  unfold issues_try.
  destruct (paged_list_getitem _ _ _) as [[cur|e|] w1] eqn:Hget; [|done..].
  destruct (issue_item_data c cur) as [data| |] eqn:Hdata; [|done..].
  simpl. intros [= <- <-] num entry [<- <-]%lookup_singleton_Some.
  exists cur. split; [by apply paged_list_getitem_elem_of in Hget|].
  split; [done|]. by apply (issue_item_data_entry c).
Qed.

Lemma pr_try_entries (c : cfg) (pr_paged_list : list pull_request) (i : Z)
    (w w' : world) (cur_entry : gmap string (gmap string value)) :
  pr_try c pr_paged_list i w = (Return cur_entry, w') →
  ∀ num entry,
    cur_entry !! num = Some entry →
    written_of pr_entry_of pr_paged_list num entry.
Proof.
  unfold pr_try.
  destruct (paged_list_getitem _ _ _) as [[cur|e|] w1] eqn:Hget; [|done..].
  destruct (pr_entry c cur) as [data| |] eqn:Hdata; [|done..].
  simpl. intros [= <- <-] num entry [<- <-]%lookup_singleton_Some.
  exists cur. split; [by apply paged_list_getitem_elem_of in Hget|].
  split; [done|]. by apply (pr_entry_entry c).
Qed.

Section LoopFacts.
Variable key : string.
Variable try_block :
  Z → world → outcome (gmap string (gmap string value)) * world.

(** *** What one pass does *)

(** A refusal of the service inside the [try] is answered by writing
    [data_dict], emptying it and sleeping; [start_val] stays. *)
Lemma loop_body_rate_limited data_dict (start_val : Z) (w w1 : world) :
  try_block start_val w = (Raise RateLimitExceededException, w1) →
  loop_body key try_block data_dict start_val w
  = (Return (∅, start_val),
     sleep_gh_session (write_merged_dict_to_json data_dict w1)).
Proof. intros Htry. unfold loop_body. by rewrite Htry. Qed.

(** A pass that goes on is either such a recovery or a success of the
    [try], and only the latter moves [start_val], by one. *)
Lemma loop_body_Return data_dict (start_val : Z) (w w' : world)
    data_dict' start_val' :
  loop_body key try_block data_dict start_val w
  = (Return (data_dict', start_val'), w') →
  (start_val' = start_val ∧ data_dict' = ∅
   ∧ ∃ w1, try_block start_val w = (Raise RateLimitExceededException, w1)
           ∧ w' = sleep_gh_session (write_merged_dict_to_json data_dict w1))
  ∨ (start_val' = start_val + 1
     ∧ ∃ cur_entry items,
         try_block start_val w = (Return cur_entry, w')
         ∧ data_dict !! key = Some items
         ∧ data_dict' = <[key := _merge_dicts items cur_entry]> data_dict).
Proof.
  unfold loop_body.
  destruct (try_block start_val w) as [[cur_entry|e|] w1]; [| |done].
  - destruct (data_dict !! key) as [items|]; [|done].
    intros [= <- <- <-]. right. split; [done|]. by exists cur_entry, items.
  - destruct e; try done. intros [= <- <- <-]. left. repeat split. by exists w1.
Qed.

(** No pass lets the rate limit through. *)
Lemma loop_body_catches data_dict (start_val : Z) (w : world) :
  (loop_body key try_block data_dict start_val w).1
  ≠ Raise RateLimitExceededException.
Proof.
  unfold loop_body.
  destruct (try_block start_val w) as [[cur_entry|e|] w1]; [| |done].
  - by destruct (data_dict !! key).
  - by destruct e.
Qed.

Lemma extraction_loop_catches (end_val : Z) (fuel : nat) :
  ∀ data_dict start_val w,
    (extraction_loop key try_block end_val fuel data_dict start_val w).1
    ≠ Raise RateLimitExceededException.
Proof.
  induction fuel as [|fuel IH]; intros data_dict start_val w; simpl.
  - by destruct (start_val <? end_val + 1).
  - destruct (start_val <? end_val + 1); [|done].
    pose proof (loop_body_catches data_dict start_val w) as Hbody.
    destruct (loop_body key try_block data_dict start_val w) as [[[d i]|e|] w'];
      [apply IH | | done].
    simpl in *. intros [= ->]. by apply Hbody.
Qed.
(** Once [data_dict] has lost its key, which is what emptying it does, the
    loop cannot return while an index is left: a success of the [try] runs
    into [KeyError], a refusal empties the dictionary again. *)
Lemma extraction_loop_without_key_never_returns (end_val : Z) (fuel : nat) :
  ∀ data_dict start_val w,
    data_dict !! key = None →
    start_val < end_val + 1 →
    ∀ d, (extraction_loop key try_block end_val fuel data_dict start_val w).1
         ≠ Return d.
Proof.
  induction fuel as [|fuel IH]; intros data_dict start_val w Hkey Hlt d; simpl;
    (destruct (Z.ltb_spec start_val (end_val + 1)); [|lia]); [done|].
  unfold loop_body.
  destruct (try_block start_val w) as [[cur_entry|e|] w1]; [| |done].
  - by rewrite Hkey.
  - destruct e; try done. by apply IH.
Qed.
End LoopFacts.

(** ** What the loop writes *)

Section LoopEntries.
Variable key : string.
Variable try_block :
  Z → world → outcome (gmap string (gmap string value)) * world.
Variable P : string → gmap string value → Prop.
Hypothesis try_block_written :
  ∀ i w r w', try_block i w = (r, w') → written w' = written w.
Hypothesis try_block_entries :
  ∀ i w cur_entry w',
    try_block i w = (Return cur_entry, w') →
    ∀ num entry, cur_entry !! num = Some entry → P num entry.

Lemma loop_body_entries data_dict (start_val : Z) (w w' : world) r :
  entries_satisfy P data_dict →
  loop_body key try_block data_dict start_val w = (r, w') →
  (∃ added, written w' = written w ++ added ∧ Forall (entries_satisfy P) added)
  ∧ ∀ data_dict' start_val',
      r = Return (data_dict', start_val') → entries_satisfy P data_dict'.
Proof.
  intros Hdict. unfold loop_body.
  destruct (try_block start_val w) as [[cur_entry|e|] w1] eqn:Htry;
    pose proof (try_block_written _ _ _ _ Htry) as Hw1.
  - destruct (data_dict !! key) as [items|] eqn:Hitems; intros [= <- <-];
      (split; [exists []; by rewrite app_nil_r|]); [|done].
    intros ? ? [= <- <-] top items' num entry Htop Hnum.
    destruct (decide (top = key)) as [->|Hne].
    + rewrite lookup_insert_eq in Htop. injection Htop as <-.
      rewrite merge_dicts_lookup in Hnum.
      destruct (cur_entry !! num) as [entry'|] eqn:Hcur.
      * injection Hnum as <-.
        by apply (try_block_entries _ _ _ _ Htry num entry').
      * by apply (Hdict key items num entry).
    + rewrite lookup_insert_ne in Htop by done.
      by apply (Hdict top items' num entry).
  - destruct e; intros [= <- <-];
      try (split; [exists []; by rewrite app_nil_r | done]).
    split.
    + exists [data_dict]. simpl. rewrite Hw1. split; [done|].
      by apply Forall_singleton.
    + intros ? ? [= <- <-] top items num entry Htop.
      by rewrite lookup_empty in Htop.
  - intros [= <- <-]. split; [exists []; by rewrite app_nil_r | done].
Qed.

Lemma extraction_loop_entries (end_val : Z) (fuel : nat) :
  ∀ data_dict start_val w r w',
    entries_satisfy P data_dict →
    extraction_loop key try_block end_val fuel data_dict start_val w = (r, w') →
    (∃ added, written w' = written w ++ added ∧ Forall (entries_satisfy P) added)
    ∧ ∀ data_dict', r = Return data_dict' → entries_satisfy P data_dict'.
Proof.
  induction fuel as [|fuel IH]; intros data_dict start_val w r w' Hdict; simpl.
  - destruct (start_val <? end_val + 1); intros [= <- <-];
      (split; [exists []; by rewrite app_nil_r|]); [done|]. by intros ? [= <-].
  - destruct (start_val <? end_val + 1);
      [|intros [= <- <-]; split; [exists []; by rewrite app_nil_r|];
        by intros ? [= <-]].
    destruct (loop_body key try_block data_dict start_val w) as [r1 w1] eqn:Hbody.
    destruct (loop_body_entries _ _ _ _ _ Hdict Hbody)
      as [(added1 & Hw1 & Hadded1) Hd1].
    destruct r1 as [[d i]|e|];
      [|intros [= <- <-]; split; [by exists added1 | done]..].
    intros Hloop. apply IH in Hloop as [(added2 & Hw2 & Hadded2) Hd2];
      [|by eapply Hd1].
    split; [|done]. exists (added1 ++ added2).
    rewrite Hw2, Hw1, <-app_assoc. split; [done|]. by apply Forall_app.
Qed.

Lemma get_data_entries {A} `{Numbered A} (page_len : Z) (paged_list : list A)
    (val_range : list Z) (w w' : world) r :
  get_data key try_block page_len paged_list val_range w = (r, w') →
  ∃ added, written w' = written w ++ added ∧ Forall (entries_satisfy P) added.
Proof.
  unfold get_data.
  destruct (_ ≫= _) as [[start_val end_val]|e|];
    [|intros [= <- <-]; exists []; by rewrite app_nil_r..].
  destruct (extraction_loop _ _ _ _ _ _ _) as [r1 w1] eqn:Hloop.
  apply extraction_loop_entries in Hloop as [(added & Hw1 & Hadded) Hd1].
  - destruct r1 as [d|e|]; intros [= <- <-]; [|by exists added..].
    exists (added ++ [d]). simpl. rewrite Hw1, <-app_assoc. split; [done|].
    apply Forall_app. split; [done|]. apply Forall_singleton. by apply Hd1.
  - intros top items num entry [<- <-]%lookup_singleton_Some.
    by rewrite lookup_empty.
Qed.
End LoopEntries.

(** ** What reaches the output file *)

(** C8, as stated, fails twice.  On pull request 3 of the sample, merged and
    with a last commit that touched one file without a patch, the value
    written under ["commit_files"] is the dictionary of [_get_commit_files],
    neither a string nor a sequence of strings: its ["additions"] is the
    integer 3, and its ["patch_text"] renders the missing patch as the text
    ["None,"], not as a placeholder.  On an issue whose title is empty and
    whose body is one space, both are written as the empty text, not as a
    placeholder. *)
Lemma written_values_differ_from_the_stated_ones :
  (∃ w' items entry d,
     get_pr_data files_cfg 3 sample_prs (fresh_world []) = (Return (), w')
     ∧ written w' = [{["pr" := items]}]
     ∧ items !! "3" = Some entry
     ∧ entry !! "commit_files" = Some (VDict d)
     ∧ ("additions", VInt 3) ∈ d
     ∧ ("patch_text", VStr "None,") ∈ d
     ∧ ¬ spec_value_shape "commit_files" (VDict d)
     ∧ ¬ Forall (entries_shaped spec_value_shape) (written w'))
  ∧ (∃ w' items entry,
       get_issues_data sample_cfg 1 [blank_issue] (fresh_world []) = (Return (), w')
       ∧ written w' = [{["issue" := items]}]
       ∧ items !! "1" = Some entry
       ∧ title blank_issue = ""
       ∧ entry !! "issue_title" = Some (VStr "")
       ∧ entry !! "issue_body" = Some (VStr "")).
Proof.
  split.
  - eexists _, _, _, _.
    split; [vm_compute; reflexivity|].
    split; [vm_compute; reflexivity|].
    split; [vm_compute; reflexivity|].
    split; [vm_compute; reflexivity|].
    split; [apply list_elem_of_further, list_elem_of_here|].
    split; [do 3 apply list_elem_of_further; apply list_elem_of_here|].
    split; [by intros []|].
    intros Hall. apply Forall_inv in Hall.
    exact (Hall "pr" _ "3" _ "commit_files" _ eq_refl eq_refl eq_refl).
  - eexists _, _, _.
    split; [vm_compute; reflexivity|].
    split; [vm_compute; reflexivity|].
    split; [vm_compute; reflexivity|].
    split; [reflexivity|].
    split; vm_compute; reflexivity.
Qed.

(** C8, amended: whatever a run of [get_issues_data] or of [get_pr_data]
    adds to the output file, every entry in it is filed under the number of
    a record of the collection and is the entry of that record: the value
    under ["__pr_merged"] is a boolean, the value under ["commit_files"] is
    the dictionary that maps ["file_list"] to a sequence of strings,
    ["additions"], ["changes"] and ["removals"] to integers and
    ["patch_text"] and ["status"] to strings, every other value is a string,
    and no value is null; a body, user name, user login or message of the
    last commit that is [None] or empty is written as ["Nan"], a missing
    closing time and the comments of an issue without comments as ["NaN"],
    and the title as it is. *)
Theorem written_values_shape (c : cfg) (page_len : Z)
    (issues_paged_list : list issue) (pr_paged_list : list pull_request)
    (w w' : world) (r : outcome unit) :
  (get_issues_data c page_len issues_paged_list w = (r, w') →
   ∃ added,
     written w' = written w ++ added
     ∧ Forall (entries_satisfy (written_of issue_entry_of issues_paged_list)) added)
  ∧ (get_pr_data c page_len pr_paged_list w = (r, w') →
     ∃ added,
       written w' = written w ++ added
       ∧ Forall (entries_satisfy (written_of pr_entry_of pr_paged_list)) added).
Proof.
  split; intros Hrun.
  - exact (get_data_entries "issue" (issues_try c issues_paged_list)
             (written_of issue_entry_of issues_paged_list)
             (λ i w0 r0 w0', issues_try_written c _ i w0 w0' r0)
             (λ i w0 cur w0', issues_try_entries c _ i w0 w0' cur)
             _ _ _ _ _ _ Hrun).
  - exact (get_data_entries "pr" (pr_try c pr_paged_list)
             (written_of pr_entry_of pr_paged_list)
             (λ i w0 r0 w0', pr_try_written c _ i w0 w0' r0)
             (λ i w0 cur w0', pr_try_entries c _ i w0 w0' cur)
             _ _ _ _ _ _ Hrun).
Qed.

Lemma written_values_shape_witness :
  (∃ w',
     get_issues_data sample_cfg 1 [blank_issue] (fresh_world []) = (Return (), w')
     ∧ ∃ added,
         written w' = written (fresh_world []) ++ added
         ∧ Forall (entries_satisfy (written_of issue_entry_of [blank_issue])) added)
  ∧ (∃ w',
       get_pr_data files_cfg 3 sample_prs (fresh_world []) = (Return (), w')
       ∧ ∃ added,
           written w' = written (fresh_world []) ++ added
           ∧ Forall (entries_satisfy (written_of pr_entry_of sample_prs)) added).
Proof.
  split.
  - eexists. split; [vm_compute; reflexivity|].
    apply (proj1 (written_values_shape sample_cfg 1 [blank_issue] []
                    (fresh_world []) _ (Return ()))).
    vm_compute; reflexivity.
  - eexists. split; [vm_compute; reflexivity|].
    apply (proj2 (written_values_shape files_cfg 3 [] sample_prs
                    (fresh_world []) _ (Return ()))).
    vm_compute; reflexivity.
Defined.

(** ** Recovery from the rate limit *)

(** C4: let the [try] block raise [RateLimitExceededException] at index [i]
    of a range that is not exhausted.  Then the pass hands [data_dict] to
    the output file, empties it, sleeps once and leaves the index at [i],
    raising nothing; the loop goes on from index [i] with the emptied
    dictionary, and the first thing it does there is to run the [try] block
    at index [i] again, in the world the sleep has left: what the loop then
    does is decided by what this second attempt answers (a further refusal is
    recovered from in the same way, again at index [i]; any other exception
    ends the run; a success goes to [data_dict[key]] on the emptied
    dictionary); no run of the loop ends in [RateLimitExceededException]; and
    a pass changes the index only when its [try] block succeeded, and then by
    one.  This holds whatever the [try] block is, so for the loop of
    [get_issues_data] and for the loop of [get_pr_data]. *)
Theorem rate_limit_recovered_at_same_index (key : string)
    (try_block : Z → world → outcome (gmap string (gmap string value)) * world)
    (end_val : Z) (fuel : nat)
    (data_dict : gmap string (gmap string (gmap string value)))
    (i : Z) (w w1 : world) :
  try_block i w = (Raise RateLimitExceededException, w1) →
  i < end_val + 1 →
  let w2 := sleep_gh_session (write_merged_dict_to_json data_dict w1) in
  loop_body key try_block data_dict i w = (Return (∅, i), w2)
  ∧ written w2 = written w1 ++ [data_dict]
  ∧ sleeps w2 = S (sleeps w1)
  ∧ extraction_loop key try_block end_val (S fuel) data_dict i w
    = extraction_loop key try_block end_val fuel ∅ i w2
  ∧ extraction_loop key try_block end_val (S (S fuel)) data_dict i w
    = match try_block i w2 with
      | (Raise RateLimitExceededException, w3) =>
          extraction_loop key try_block end_val fuel ∅ i
            (sleep_gh_session (write_merged_dict_to_json ∅ w3))
      | (Raise e, w3) => (Raise e, w3)
      | (OutOfFuel, w3) => (OutOfFuel, w3)
      | (Return cur_entry, w3) => (Raise KeyError, w3)
      end
  ∧ (∀ fuel0 data_dict0 i0 w0,
       (extraction_loop key try_block end_val fuel0 data_dict0 i0 w0).1
       ≠ Raise RateLimitExceededException)
  ∧ (∀ data_dict0 i0 w0 data_dict' i' w',
       loop_body key try_block data_dict0 i0 w0 = (Return (data_dict', i'), w') →
       i' ≠ i0 →
       i' = i0 + 1 ∧ ∃ cur_entry, try_block i0 w0 = (Return cur_entry, w')).
Proof.
  intros Htry Hi w2.
  pose proof (loop_body_rate_limited key try_block data_dict i w w1 Htry) as Hbody.
  assert (∀ fuel', extraction_loop key try_block end_val (S fuel') data_dict i w
                   = extraction_loop key try_block end_val fuel' ∅ i w2) as Hnext.
  { intros fuel'. simpl. rewrite Hbody.
    by destruct (Z.ltb_spec i (end_val + 1)); [|lia]. }
  split; [done|]. split; [done|]. split; [done|]. split; [apply Hnext|]. split.
  - rewrite Hnext. simpl.
    destruct (Z.ltb_spec i (end_val + 1)); [|lia]. unfold loop_body.
    destruct (try_block i w2) as [[cur_entry|e|] w3]; [by rewrite lookup_empty| |done].
    by destruct e.
  - split; [intros; apply extraction_loop_catches|].
    intros data_dict0 i0 w0 data_dict' i' w' Hpass Hmoved.
    apply loop_body_Return in Hpass
      as [(-> & _) | (-> & cur_entry & items & Hok & _)]; [done|].
    split; [done | by exists cur_entry].
Qed.

Lemma rate_limit_recovered_at_same_index_witness :
  let try_block := issues_try sample_cfg (issues_upto 2) in
  let data_dict : gmap string (gmap string (gmap string value)) :=
    {["issue" := {["1" := sample_issue_entry]}]} in
  let w2 := {| limits := [true]; written := [data_dict]; sleeps := 1 |} in
  try_block 1 (fresh_world [true; true])
  = (Raise RateLimitExceededException, fresh_world [true])
  ∧ 1 < 1 + 1
  ∧ loop_body "issue" try_block data_dict 1 (fresh_world [true; true])
    = (Return (∅, 1), w2)
  ∧ written w2 = written (fresh_world [true]) ++ [data_dict]
  ∧ sleeps w2 = S (sleeps (fresh_world [true]))
  ∧ extraction_loop "issue" try_block 1 2 data_dict 1 (fresh_world [true; true])
    = extraction_loop "issue" try_block 1 1 ∅ 1 w2
  ∧ extraction_loop "issue" try_block 1 3 data_dict 1 (fresh_world [true; true])
    = match try_block 1 w2 with
      | (Raise RateLimitExceededException, w3) =>
          extraction_loop "issue" try_block 1 1 ∅ 1
            (sleep_gh_session (write_merged_dict_to_json ∅ w3))
      | (Raise e, w3) => (Raise e, w3)
      | (OutOfFuel, w3) => (OutOfFuel, w3)
      | (Return cur_entry, w3) => (Raise KeyError, w3)
      end
  ∧ (∀ fuel0 data_dict0 i0 w0,
       (extraction_loop "issue" try_block 1 fuel0 data_dict0 i0 w0).1
       ≠ Raise RateLimitExceededException)
  ∧ (∀ data_dict0 i0 w0 data_dict' i' w',
       loop_body "issue" try_block data_dict0 i0 w0 = (Return (data_dict', i'), w') →
       i' ≠ i0 →
       i' = i0 + 1 ∧ ∃ cur_entry, try_block i0 w0 = (Return cur_entry, w')).
Proof.
  intros try_block data_dict w2.
  split; [reflexivity|]. split; [lia|].
  apply (rate_limit_recovered_at_same_index "issue" try_block 1 1 data_dict 1
           (fresh_world [true; true]) (fresh_world [true])); [reflexivity | lia].
Defined.

(** ** An interrupted run *)

(** C3: two issues numbered 1 and 2, range [1, 2], and a service that
    refuses the request for the second issue once.  Left alone, the run
    returns and the file holds both entries.  Interrupted, the run writes the
    entry of issue 1, empties [data_dict], which takes the ["issue"] key
    away, sleeps, fetches issue 2 again and raises [KeyError] at
    [data_dict["issue"]]: the entry of issue 2 never reaches the file.  The
    loop of [get_pr_data] does the same on two pull requests. *)
Theorem interrupted_run_raises_KeyError :
  get_issues_data sample_cfg 2 (issues_upto 2) (fresh_world [])
  = (Return (),
     {| limits := [];
        written := [{["issue" := {["1" := sample_issue_entry;
                                   "2" := sample_issue_entry]}]}];
        sleeps := 0 |})
  ∧ get_issues_data sample_cfg 2 (issues_upto 2) (fresh_world [false; true])
    = (Raise KeyError,
       {| limits := [];
          written := [{["issue" := {["1" := sample_issue_entry]}]}];
          sleeps := 1 |})
  ∧ merged_output [{["issue" := {["1" := sample_issue_entry]}]}]
    ≠ merged_output [{["issue" := {["1" := sample_issue_entry;
                                    "2" := sample_issue_entry]}]}]
  ∧ get_pr_data sample_cfg 3 sample_prs (fresh_world [])
    = (Return (),
       {| limits := [];
          written := [{["pr" := {["1" := sample_pr_entry_1;
                                  "2" := sample_pr_entry_2]}]}];
          sleeps := 0 |})
  ∧ get_pr_data sample_cfg 3 sample_prs (fresh_world [false; true])
    = (Raise KeyError,
       {| limits := [];
          written := [{["pr" := {["1" := sample_pr_entry_1]}]}];
          sleeps := 1 |})
  ∧ merged_output [{["pr" := {["1" := sample_pr_entry_1]}]}]
    ≠ merged_output [{["pr" := {["1" := sample_pr_entry_1;
                                 "2" := sample_pr_entry_2]}]}].
Proof.
  split; [by vm_compute|]. split; [by vm_compute|]. split.
  { intros Heq.
    apply (f_equal (λ m, m !! "issue" ≫= (.!! "2"))) in Heq.
    vm_compute in Heq. discriminate. }
  split; [by vm_compute|]. split; [by vm_compute|].
  intros Heq.
  apply (f_equal (λ m, m !! "pr" ≫= (.!! "2"))) in Heq.
  vm_compute in Heq. discriminate.
Qed.

(** ** The loop ends *)

Lemma settles_Return {A} (a : A) : settles (Return a).
Proof. by split. Qed.

Lemma settles_bind {A B} (m : outcome A) (f : A → outcome B) :
  settles m → (∀ a, settles (f a)) → settles (m ≫= f).
Proof.
  destruct m as [a|e|]; simpl; [auto| |by intros [? _]].
  intros [_ He] _. split; [done|]. intros [= ->]. by apply He.
Qed.

Lemma py_index_settles {A} (l : list A) (i : Z) : settles (py_index l i).
Proof. unfold settles, py_index. repeat case_match; done. Qed.

Lemma dict_comprehension_settles {A} (dispatch : gmap string (A → value)) (obj : A)
    (fields : list string) :
  ∀ acc, settles (dict_comprehension dispatch obj fields acc).
Proof.
  induction fields as [|f fields IH]; intros acc; simpl; [apply settles_Return|].
  destruct (dispatch !! f); [apply IH | by split].
Qed.

Lemma pr_entry_settles (c : cfg) (cur_pr : pull_request) : settles (pr_entry c cur_pr).
Proof.
  unfold pr_entry. destruct (_ || _); [|apply settles_Return].
  apply settles_bind; [apply dict_comprehension_settles|]. intros data.
  apply settles_bind; [apply py_index_settles|]. intros last_commit.
  destruct (0 <? _); [|apply settles_Return].
  apply settles_bind; [apply dict_comprehension_settles|]. intros cdata.
  apply settles_Return.
Qed.

Lemma paged_list_getitem_limits {A} (paged_list : list A) (index : Z)
    (w w1 : world) (r : outcome A) :
  paged_list_getitem paged_list index w = (r, w1) →
  r ≠ OutOfFuel
  ∧ (length (limits w1) ≤ length (limits w))%nat
  ∧ (r = Raise RateLimitExceededException →
     (length (limits w1) < length (limits w))%nat).
Proof.
  unfold paged_list_getitem.
  destruct (py_index_settles paged_list index) as [Hfuel Hlimit].
  destruct (limits w) as [|[] rest] eqn:Hlimits; intros [= <- <-]; simpl;
    rewrite ?Hlimits; simpl; repeat split; try done; try lia;
    intros Hr; by apply Hlimit in Hr.
Qed.

Lemma issues_try_uses_up_refusals (c : cfg) (issues_paged_list : list issue) :
  uses_up_refusals (issues_try c issues_paged_list).
Proof.
  intros i w r w1. unfold issues_try.
  destruct (paged_list_getitem _ _ _) as [[cur|e|] w'] eqn:Hget;
    apply paged_list_getitem_limits in Hget as (Hfuel & Hle & Hlt);
    intros [= <- <-].
  - destruct (dict_comprehension_settles ISSUE_CMD_DISPATCH cur
                (cfg_issues_fields c) ∅) as [Hfuel' Hlimit'].
    unfold issue_item_data.
    destruct (dict_comprehension _ _ _ _) as [data|e|]; simpl;
      repeat split; try done. intros [= ->]. done.
  - repeat split; [done.. |]. intros [= ->]. by apply Hlt.
  - done.
Qed.

Lemma pr_try_uses_up_refusals (c : cfg) (pr_paged_list : list pull_request) :
  uses_up_refusals (pr_try c pr_paged_list).
Proof.
  intros i w r w1. unfold pr_try.
  destruct (paged_list_getitem _ _ _) as [[cur|e|] w'] eqn:Hget;
    apply paged_list_getitem_limits in Hget as (Hfuel & Hle & Hlt);
    intros [= <- <-].
  - destruct (pr_entry_settles c cur) as [Hfuel' Hlimit'].
    destruct (pr_entry c cur) as [data|e|]; simpl;
      repeat split; try done. intros [= ->]. done.
  - repeat split; [done.. |]. intros [= ->]. by apply Hlt.
  - done.
Qed.

Section LoopEnds.
Variable key : string.
Variable try_block :
  Z → world → outcome (gmap string (gmap string value)) * world.
Hypothesis try_block_uses_up : uses_up_refusals try_block.

(** One pass for each index left and one for each refusal in store are
    enough for the loop to come to its end. *)
Lemma extraction_loop_ends (end_val : Z) (fuel : nat) :
  ∀ data_dict start_val w,
    (Z.to_nat (end_val + 1 - start_val) + length (limits w) ≤ fuel)%nat →
    (extraction_loop key try_block end_val fuel data_dict start_val w).1 ≠ OutOfFuel.
Proof.
  induction fuel as [|fuel IH]; intros data_dict start_val w Hfuel; simpl.
  - destruct (Z.ltb_spec start_val (end_val + 1)); [lia | done].
  - destruct (Z.ltb_spec start_val (end_val + 1)) as [Hlt|]; [|done].
    unfold loop_body.
    destruct (try_block start_val w) as [r w1] eqn:Htry.
    destruct (try_block_uses_up _ _ _ _ Htry) as (Hstop & Hle & Hless).
    destruct r as [cur_entry|e|]; [| |done].
    + destruct (data_dict !! key); [|done]. apply IH. lia.
    + destruct e; try done. apply IH. simpl. specialize (Hless eq_refl). lia.
Qed.
End LoopEnds.

Lemma get_api_item_indices_ends {A} `{Numbered A} (page_len : Z)
    (paged_list : list A) (range_list : list Z) :
  _get_api_item_indices page_len paged_list range_list ≠ OutOfFuel.
Proof.
  assert (∀ last_page_index val,
            item_list_index page_len paged_list last_page_index val ≠ OutOfFuel)
    as Hitem.
  { intros last_page_index val. unfold item_list_index.
    pose proof (bin_search_in_list_terminates page_len paged_list last_page_index val).
    destruct (__bin_search_in_list _ _ _ _) as [page| |]; [|done..]. simpl.
    pose proof (bin_search_in_page_terminates
                  (get_page page_len paged_list page) page_len val).
    by destruct (__bin_search_in_page _ _ _). }
  unfold _get_api_item_indices. destruct (page_len =? 0); [done|].
  unfold _get_page_last_item.
  pose proof (py_index_not_OutOfFuel
                (get_page page_len paged_list
                   ((totalCount paged_list - 1) `div` page_len)) (-1)).
  destruct (py_index (get_page _ _ _) _) as [last| |]; [|done..]. simpl.
  pose proof (py_index_not_OutOfFuel range_list 0).
  destruct (py_index range_list 0) as [lo| |]; [|done..]. simpl.
  pose proof (py_index_not_OutOfFuel range_list (-1)).
  destruct (py_index range_list (-1)) as [hi| |]; [|done..]. simpl.
  pose proof (Hitem ((totalCount paged_list - 1) `div` page_len)
                (Z.min lo (number last))).
  destruct (item_list_index _ _ _ (Z.min lo _)) as [i1| |]; [|done..]. simpl.
  pose proof (Hitem ((totalCount paged_list - 1) `div` page_len)
                (Z.min hi (number last))).
  by destruct (item_list_index _ _ _ (Z.min hi _)).
Qed.

(** [get_issues_data] and [get_pr_data] come to an end, by returning or by
    raising, whatever the collection, the configuration and the refusals of
    the service. *)
Lemma get_data_ends (key : string)
    (try_block : Z → world → outcome (gmap string (gmap string value)) * world)
    {A} `{Numbered A} (page_len : Z) (paged_list : list A) (val_range : list Z)
    (w : world) :
  uses_up_refusals try_block →
  (get_data key try_block page_len paged_list val_range w).1 ≠ OutOfFuel.
Proof.
  intros Huses. unfold get_data.
  pose proof (get_api_item_indices_ends page_len paged_list val_range) as Hrange.
  destruct (_get_api_item_indices _ _ _) as [range_list| |]; [|done..]. simpl.
  pose proof (py_index_not_OutOfFuel range_list 0).
  destruct (py_index range_list 0) as [start_val| |]; [|done..]. simpl.
  pose proof (py_index_not_OutOfFuel range_list 1).
  destruct (py_index range_list 1) as [end_val| |]; [|done..]. simpl.
  pose proof (extraction_loop_ends key try_block Huses end_val
                (Z.to_nat (end_val + 1 - start_val) + length (limits w))
                {[key := ∅]} start_val w (le_n _)) as Hloop.
  by destruct (extraction_loop _ _ _ _ _ _ _) as [[d|e|] w'].
Qed.

Lemma get_issues_data_ends (c : cfg) (page_len : Z) (issues_paged_list : list issue)
    (w : world) :
  (get_issues_data c page_len issues_paged_list w).1 ≠ OutOfFuel.
Proof. apply get_data_ends, issues_try_uses_up_refusals. Qed.

Lemma get_pr_data_ends (c : cfg) (page_len : Z) (pr_paged_list : list pull_request)
    (w : world) :
  (get_pr_data c page_len pr_paged_list w).1 ≠ OutOfFuel.
Proof. apply get_data_ends, pr_try_uses_up_refusals. Qed.

(** The range [1, 500] over the hundred records of C7: the high end is
    resolved as 100, and the page search, which never answers the last of
    four pages, sends it to page 2, so both [1, 500] and [1, 100] end at
    index 90. *)
Example range_1_500_of_hundred :
  _get_api_item_indices 30 (issues_upto 100) [1; 500] = Return [0; 90]
  ∧ _get_api_item_indices 30 (issues_upto 100) [1; 100] = Return [0; 90].
Proof. by vm_compute. Qed.

(** * Further properties *)

(** ** Reading a list *)

Lemma py_index_Return_lookup {A} (l : list A) (i : Z) (x : A) :
  py_index l i = Return x → 0 ≤ i → l !! Z.to_nat i = Some x.
Proof.
  unfold py_index. intros Hx Hi.
  destruct (Z.ltb_spec i 0); [lia|].
  destruct (_ && _); [|done]. by destruct (l !! Z.to_nat i) eqn:Hl; simplify_eq.
Qed.

Lemma py_index_last_lookup {A} (l : list A) (x : A) :
  py_index l (-1) = Return x → l !! (length l - 1)%nat = Some x ∧ l ≠ [].
Proof.
  unfold py_index. simpl.
  destruct (Z.leb_spec 0 (Z.of_nat (length l) + -1)); [|done].
  destruct (_ <? _); [|done]. simpl.
  replace (Z.to_nat (Z.of_nat (length l) + -1)) with (length l - 1)%nat by lia.
  destruct (l !! (length l - 1)%nat) eqn:Hl; [|done].
  intros [= ->]. split; [done|]. intros ->. simpl in *. lia.
Qed.

Lemma py_index_out_of_range {A} (l : list A) (i : Z) :
  Z.of_nat (length l) ≤ i → py_index l i = Raise IndexError.
Proof.
  intros Hi. unfold py_index.
  destruct (Z.ltb_spec i 0); [lia|].
  destruct (Z.ltb_spec i (Z.of_nat (length l))); [lia|].
  by rewrite andb_false_r.
Qed.

Lemma get_page_lookup {A} (page_len : Z) (paged_list : list A) (page : Z) (k : nat) :
  0 < page_len → 0 ≤ page → Z.of_nat k < page_len →
  get_page page_len paged_list page !! k
  = paged_list !! Z.to_nat (page * page_len + Z.of_nat k).
Proof.
  intros Hlen Hpage Hk. unfold get_page.
  rewrite lookup_take_lt by lia. rewrite lookup_drop. f_equal. nia.
Qed.

Lemma get_page_lookup_Some {A} (page_len : Z) (paged_list : list A) (page : Z)
    (k : nat) (x : A) :
  0 < page_len → 0 ≤ page →
  get_page page_len paged_list page !! k = Some x →
  Z.of_nat k < page_len
  ∧ paged_list !! Z.to_nat (page * page_len + Z.of_nat k) = Some x.
Proof.
  intros Hlen Hpage Hx.
  assert (Z.of_nat k < page_len).
  { apply lookup_lt_Some in Hx. unfold get_page in Hx.
    rewrite length_take in Hx. lia. }
  split; [done|]. by rewrite <-get_page_lookup.
Qed.

Lemma get_page_ascending {A} `{Numbered A} (page_len : Z) (paged_list : list A)
    (page : Z) :
  0 < page_len → 0 ≤ page → ascending paged_list →
  ascending (get_page page_len paged_list page).
Proof.
  intros Hlen Hpage Hasc a b x y Ha Hb Hab.
  apply get_page_lookup_Some in Ha as [? Ha]; [|done..].
  apply get_page_lookup_Some in Hb as [? Hb]; [|done..].
  apply (Hasc _ _ _ _ Ha Hb). nia.
Qed.

(** ** What the in-page search returns *)

Section InPageResult.
Context {A : Type} `{Numbered A}.

(** Whatever the page, an offset the loop returns lies between [low] and the
    upper bound. *)
Lemma bin_search_in_page_loop_range (page : list A) (val : Z) (fuel : nat) :
  ∀ low page_len i,
    bin_search_in_page_loop page val fuel low page_len = Return i →
    low ≤ i ≤ Z.max low page_len.
Proof.
  induction fuel as [|fuel IH]; intros low page_len i; simpl.
  - destruct (Z.ltb_spec low (page_len - 1)); [done|]. intros [= <-]. lia.
  - destruct (Z.ltb_spec low (page_len - 1)) as [Hlt|]; [|intros [= <-]; lia].
    pose proof (midpoint_inside _ _ Hlt) as Hmid.
    destruct (py_index page _) as [cur| |]; [|done..]. simpl.
    destruct (Z.eqb_spec val (number cur)); [intros [= <-]; lia|].
    destruct (Z.ltb_spec val (number cur)); [intros Hi%IH; lia|].
    destruct (Z.ltb_spec (number cur) val); [intros Hi%IH; lia | lia].
Qed.

(** On an ascending page the loop never steps over a record numbered [val]
    or higher. *)
Lemma bin_search_in_page_loop_below (page : list A) (val : Z) (fuel : nat) :
  ascending page →
  ∀ low page_len i,
    0 ≤ low →
    below_before page val low →
    bin_search_in_page_loop page val fuel low page_len = Return i →
    below_before page val i.
Proof.
  intros Hasc.
  induction fuel as [|fuel IH]; intros low page_len i Hlow Hinv; simpl.
  - destruct (Z.ltb_spec low (page_len - 1)); [done|]. by intros [= <-].
  - destruct (Z.ltb_spec low (page_len - 1)) as [Hlt|]; [|by intros [= <-]].
    pose proof (midpoint_inside _ _ Hlt) as Hmid.
    set (mid := (low + page_len) `div` 2) in *.
    destruct (py_index page mid) as [cur| |] eqn:Hcur; [|done..]. simpl.
    apply py_index_Return_lookup in Hcur; [|lia].
    destruct (Z.eqb_spec val (number cur)) as [->|Hne].
    { intros [= <-] j x Hj Hx. apply (Hasc _ _ _ _ Hx Hcur). lia. }
    destruct (Z.ltb_spec val (number cur)); [by apply IH|].
    destruct (Z.ltb_spec (number cur) val) as [Hcv|]; [|lia].
    apply IH; [lia|]. intros j x Hj Hx.
    destruct (decide (j = Z.to_nat mid)) as [->|Hjm].
    + by simplify_eq.
    + assert (number x < number cur); [|lia].
      apply (Hasc _ _ _ _ Hx Hcur). lia.
Qed.
End InPageResult.

(** X1: a page length that does not exceed the length of the page keeps the
    in-page search inside the page: it raises nothing and returns an offset
    between 0 and that page length. *)
Theorem bin_search_in_page_within_length {A} `{Numbered A} (page : list A)
    (page_len val : Z) :
  page_len ≤ Z.of_nat (length page) →
  ∃ i, __bin_search_in_page page page_len val = Return i
       ∧ 0 ≤ i ≤ Z.max 0 page_len.
Proof.
  intros Hlen.
  destruct (bin_search_in_page_loop_in_bounds page val (Z.to_nat page_len) 0 page_len)
    as (i & Hi & Hb); [lia..|].
  by exists i.
Qed.

Lemma bin_search_in_page_within_length_witness :
  25 ≤ Z.of_nat (length (issues_upto 30))
  ∧ ∃ i, __bin_search_in_page (issues_upto 30) 25 17 = Return i
         ∧ 0 ≤ i ≤ Z.max 0 25.
Proof.
  split; [vm_compute; discriminate|].
  apply (bin_search_in_page_within_length (issues_upto 30) 25 17).
  vm_compute. discriminate.
Defined.

(** X2: on a page at most half as long as the page length handed over, the
    first probe of the in-page search is past the end of the page and the
    search raises [IndexError], whatever it looks for. *)
Theorem bin_search_in_page_short_page_raises {A} `{Numbered A} (page : list A)
    (page_len val : Z) :
  2 ≤ page_len →
  Z.of_nat (length page) ≤ page_len `div` 2 →
  __bin_search_in_page page page_len val = Raise IndexError.
Proof.
  intros Hlen Hshort. unfold __bin_search_in_page.
  destruct (Z.to_nat page_len) as [|fuel] eqn:Hfuel; [lia|]. simpl.
  destruct (Z.ltb_spec 0 (page_len - 1)); [|lia].
  by rewrite py_index_out_of_range.
Qed.

Lemma bin_search_in_page_short_page_raises_witness :
  2 ≤ 30
  ∧ Z.of_nat (length (issues_upto 15)) ≤ 30 `div` 2
  ∧ __bin_search_in_page (issues_upto 15) 30 7 = Raise IndexError.
Proof.
  split; [lia|]. split; [vm_compute; discriminate|].
  apply (bin_search_in_page_short_page_raises (issues_upto 15) 30 7);
    [lia | vm_compute; discriminate].
Defined.

(** X3: on an ascending page, every record before the offset the in-page
    search returns is numbered below the number looked for: the search never
    steps over the record looked for, or over a higher one. *)
Theorem bin_search_in_page_never_overshoots {A} `{Numbered A} (page : list A)
    (page_len val i : Z) :
  ascending page →
  __bin_search_in_page page page_len val = Return i →
  0 ≤ i ∧ below_before page val i.
Proof.
  intros Hasc Hi. split.
  - apply bin_search_in_page_loop_range in Hi. lia.
  - revert Hi. apply bin_search_in_page_loop_below; [done | lia |].
    intros j x Hj. lia.
Qed.

Lemma issues_upto_lookup (n : Z) (a : nat) (x : issue) :
  issues_upto n !! a = Some x → x = mk_issue (1 + Z.of_nat a).
Proof.
  unfold issues_upto. rewrite list_lookup_fmap.
  destruct (seqZ 1 n !! a) as [m|] eqn:Hm; [|done].
  apply lookup_seqZ in Hm as [-> _]. by intros [= <-].
Qed.

Lemma issues_upto_ascending (n : Z) : ascending (issues_upto n).
Proof.
  intros a b x y ->%issues_upto_lookup ->%issues_upto_lookup Hab.
  unfold number, api_number. simpl. lia.
Qed.

Lemma bin_search_in_page_never_overshoots_witness :
  ascending (issues_upto 4)
  ∧ __bin_search_in_page (issues_upto 4) 4 3 = Return 2
  ∧ 0 ≤ 2
  ∧ below_before (issues_upto 4) 3 2.
Proof.
  split; [apply issues_upto_ascending|]. split; [reflexivity|].
  apply (bin_search_in_page_never_overshoots (issues_upto 4) 4 3 2);
    [apply issues_upto_ascending | reflexivity].
Defined.

(** ** What the page search returns *)

Section PageResult.
Context {A : Type} `{Numbered A}.

Lemma bin_search_in_list_loop_range (page_len : Z) (paged_list : list A)
    (val : Z) (fuel : nat) :
  ∀ low high page,
    bin_search_in_list_loop page_len paged_list val fuel low high = Return page →
    low ≤ page ≤ Z.max low high.
Proof.
  induction fuel as [|fuel IH]; intros low high page; simpl.
  - destruct (Z.ltb_spec low (high - 1)); [done|]. intros [= <-]. lia.
  - destruct (Z.ltb_spec low (high - 1)) as [Hlt|]; [|intros [= <-]; lia].
    pose proof (midpoint_inside _ _ Hlt) as Hmid.
    destruct (py_index _ 0) as [first| |]; [|done..]. simpl.
    destruct (_get_page_last_item _ _ _) as [last| |]; [|done..]. simpl.
    destruct (_ && _); [intros [= <-]; lia|].
    destruct (_ <? _); [intros Hp%IH; lia|].
    destruct (_ <? _); [intros Hp%IH; lia|].
    intros Hp%IH; lia.
Qed.

(** The last item of a page sits at or after every item of the collection
    that comes before the next page starts. *)
Lemma page_last_item_position (page_len : Z) (paged_list : list A) (page : Z)
    (last : A) :
  0 < page_len → 0 ≤ page →
  _get_page_last_item page_len paged_list page = Return last →
  ∃ idx : nat,
    paged_list !! idx = Some last
    ∧ ∀ j : nat, Z.of_nat j < (page + 1) * page_len →
                 (j < length paged_list)%nat → (j ≤ idx)%nat.
Proof.
  intros Hlen Hpage Hlast. unfold _get_page_last_item in Hlast.
  apply py_index_last_lookup in Hlast as [Hlast Hne].
  assert (0 < length (get_page page_len paged_list page))%nat as Hpos
    by (destruct (get_page _ _ _); [done | simpl; lia]).
  apply get_page_lookup_Some in Hlast as [Hk Hlast]; [|done..].
  eexists. split; [exact Hlast|].
  intros j Hj Hjn. unfold get_page in *.
  rewrite length_take, length_drop in *. nia.
Qed.

(** On an ascending collection the loop never passes a page that holds a
    record numbered [val] or higher. *)
Lemma bin_search_in_list_loop_below (page_len : Z) (paged_list : list A)
    (val : Z) (fuel : nat) :
  0 < page_len → ascending paged_list →
  ∀ low high page,
    0 ≤ low →
    below_before paged_list val (low * page_len) →
    bin_search_in_list_loop page_len paged_list val fuel low high = Return page →
    below_before paged_list val (page * page_len).
Proof.
  intros Hlen Hasc.
  induction fuel as [|fuel IH]; intros low high page Hlow Hinv; simpl.
  - destruct (Z.ltb_spec low (high - 1)); [done|]. by intros [= <-].
  - destruct (Z.ltb_spec low (high - 1)) as [Hlt|]; [|by intros [= <-]].
    pose proof (midpoint_inside _ _ Hlt) as Hmid.
    set (mid := (low + high) `div` 2) in *.
    destruct (py_index _ 0) as [first| |] eqn:Hfirst; [|done..]. simpl.
    destruct (_get_page_last_item _ _ _) as [last| |] eqn:Hlast; [|done..]. simpl.
    apply py_index_Return_lookup in Hfirst; [|lia].
    apply get_page_lookup_Some in Hfirst as [_ Hfirst]; [|lia..].
    destruct (Z.leb_spec (number first) val) as [Hfv|Hfv]; simpl.
    + destruct (Z.leb_spec val (number last)) as [Hvl|Hvl]; simpl.
      * intros [= <-] j x Hj Hx.
        assert (number x < number first); [|lia].
        apply (Hasc _ _ _ _ Hx Hfirst). lia.
      * destruct (Z.ltb_spec val (number first)); [lia|].
        destruct (Z.ltb_spec (number last) val); [|lia].
        apply IH; [lia|].
        apply page_last_item_position in Hlast as (idx & Hidx & Hbefore); [|lia..].
        intros j x Hj Hx.
        assert (j ≤ idx)%nat as Hle
          by (apply Hbefore; [lia | by apply lookup_lt_Some in Hx]).
        destruct (decide (j = idx)) as [->|Hji]; [by simplify_eq|].
        assert (number x < number last); [|lia].
        apply (Hasc _ _ _ _ Hx Hidx). lia.
    + destruct (Z.ltb_spec val (number first)); [|lia]. by apply IH.
Qed.
End PageResult.

(** X4: on an ascending collection in pages of a positive length, every
    record on a page before the page the page search returns is numbered
    below the number looked for: the search never passes the page of the
    record looked for. *)
Theorem bin_search_in_list_never_overshoots {A} `{Numbered A} (page_len : Z)
    (paged_list : list A) (last_page_index val page : Z) :
  0 < page_len →
  ascending paged_list →
  __bin_search_in_list page_len paged_list last_page_index val = Return page →
  0 ≤ page ∧ below_before paged_list val (page * page_len).
Proof.
  intros Hlen Hasc Hpage. split.
  - apply bin_search_in_list_loop_range in Hpage. lia.
  - revert Hpage. apply bin_search_in_list_loop_below; [done..| lia |].
    intros j x Hj. lia.
Qed.

Lemma bin_search_in_list_never_overshoots_witness :
  0 < 30
  ∧ ascending (issues_upto 200)
  ∧ __bin_search_in_list 30 (issues_upto 200) 6 140 = Return 4
  ∧ 0 ≤ 4
  ∧ below_before (issues_upto 200) 140 (4 * 30).
Proof.
  split; [lia|]. split; [apply issues_upto_ascending|].
  split; [by vm_compute|].
  apply (bin_search_in_list_never_overshoots 30 (issues_upto 200) 6 140 4);
    [lia | apply issues_upto_ascending | by vm_compute].
Defined.

(** ** What the range resolver returns *)

Lemma item_list_index_below {A} `{Numbered A} (page_len : Z) (paged_list : list A)
    (last_page_index val index : Z) :
  0 < page_len → ascending paged_list →
  item_list_index page_len paged_list last_page_index val = Return index →
  0 ≤ index ∧ below_before paged_list val index.
Proof.
  intros Hlen Hasc. unfold item_list_index.
  destruct (__bin_search_in_list _ _ _ _) as [page| |] eqn:Hpage; [|done..]. simpl.
  destruct (__bin_search_in_page _ _ _) as [i| |] eqn:Hi; [|done..]. simpl.
  intros [= <-].
  pose proof (bin_search_in_list_loop_range _ _ _ _ _ _ _ Hpage) as Hp.
  apply bin_search_in_list_loop_below in Hpage as Hpages;
    [|done | done | lia | intros j x Hj; lia].
  pose proof (bin_search_in_page_loop_range _ _ _ _ _ _ Hi) as Hrange.
  apply bin_search_in_page_loop_below in Hi as Hoffsets;
    [|apply get_page_ascending; [done | lia | done] | lia | intros j x Hj; lia].
  split; [nia|]. intros j x Hj Hx.
  destruct (Z.lt_ge_cases (Z.of_nat j) (page * page_len)) as [Hbefore|Hon].
  - by apply (Hpages j x).
  - apply (Hoffsets (Z.to_nat (Z.of_nat j - page * page_len)) x); [lia|].
    rewrite get_page_lookup by lia. rewrite <-Hx. f_equal. lia.
Qed.

(** X5: on an ascending collection, the two indices [_get_api_item_indices]
    returns are not negative, and every record before either of them is
    numbered below the end of the range it stands for, clamped to the number
    of the last record: no record in the range lies before the start index. *)
Theorem get_api_item_indices_never_overshoot {A} `{Numbered A} (page_len : Z)
    (paged_list : list A) (low high : Z) (range_list : list Z) (last : A) :
  0 < page_len →
  ascending paged_list →
  _get_page_last_item page_len paged_list
    ((totalCount paged_list - 1) `div` page_len) = Return last →
  _get_api_item_indices page_len paged_list [low; high] = Return range_list →
  ∃ start_val end_val,
    range_list = [start_val; end_val]
    ∧ 0 ≤ start_val ∧ 0 ≤ end_val
    ∧ below_before paged_list (Z.min low (number last)) start_val
    ∧ below_before paged_list (Z.min high (number last)) end_val.
Proof.
  intros Hlen Hasc Hlast. unfold _get_api_item_indices.
  destruct (Z.eqb_spec page_len 0); [lia|]. rewrite Hlast. simpl.
  destruct (item_list_index _ _ _ (Z.min low _)) as [start_val| |] eqn:Hstart;
    [|done..]. simpl.
  destruct (item_list_index _ _ _ (Z.min high _)) as [end_val| |] eqn:Hend;
    [|done..]. simpl.
  intros [= <-].
  apply item_list_index_below in Hstart as [? ?]; [|done..].
  apply item_list_index_below in Hend as [? ?]; [|done..].
  by exists start_val, end_val.
Qed.

Lemma get_api_item_indices_never_overshoot_witness :
  0 < 30
  ∧ ascending (issues_upto 100)
  ∧ _get_page_last_item 30 (issues_upto 100)
      ((totalCount (issues_upto 100) - 1) `div` 30) = Return (mk_issue 100)
  ∧ _get_api_item_indices 30 (issues_upto 100) [45; 500] = Return [44; 90]
  ∧ ∃ start_val end_val,
      [44; 90] = [start_val; end_val]
      ∧ 0 ≤ start_val ∧ 0 ≤ end_val
      ∧ below_before (issues_upto 100) (Z.min 45 (number (mk_issue 100))) start_val
      ∧ below_before (issues_upto 100) (Z.min 500 (number (mk_issue 100))) end_val.
Proof.
  split; [lia|]. split; [apply issues_upto_ascending|].
  split; [by vm_compute|]. split; [by vm_compute|].
  apply (get_api_item_indices_never_overshoot 30 (issues_upto 100) 45 500
           [44; 90] (mk_issue 100));
    [lia | apply issues_upto_ascending | by vm_compute | by vm_compute].
Defined.

(** ** The highest number *)

(** X6: for a collection that is not empty, served in pages of a positive
    length, the item [_get_api_item_indices] takes the highest number from,
    the last item of page [(totalCount - 1) // page_len], is the last item
    of the collection. *)
Theorem page_last_item_of_last_page {A} (page_len : Z) (paged_list : list A)
    (x : A) :
  0 < page_len →
  last paged_list = Some x →
  _get_page_last_item page_len paged_list
    ((totalCount paged_list - 1) `div` page_len) = Return x.
Proof.
  intros Hlen Hlast.
  assert (paged_list ≠ []) as Hne by (by intros ->).
  assert (0 < totalCount paged_list) as Hpos
    by (unfold totalCount; destruct paged_list; [done | simpl; lia]).
  set (page := (totalCount paged_list - 1) `div` page_len).
  assert (0 ≤ page) by (apply Z.div_pos; lia).
  pose proof (Z.mul_div_le (totalCount paged_list - 1) page_len Hlen) as Hlow.
  pose proof (Z.mul_succ_div_gt (totalCount paged_list - 1) page_len Hlen) as Hhigh.
  fold page in Hlow, Hhigh.
  assert (get_page page_len paged_list page ≠ []) as Hpage
    by (apply pages_nonempty; [done.. | lia]).
  unfold _get_page_last_item.
  destruct (py_index_last_Return _ Hpage) as [y Hy]. rewrite Hy. f_equal.
  apply py_index_last_lookup in Hy as [Hy _].
  apply get_page_lookup_Some in Hy as [_ Hy]; [|done..].
  rewrite last_lookup in Hlast.
  replace (Z.to_nat (page * page_len
                     + Z.of_nat (length (get_page page_len paged_list page) - 1)))
    with (pred (length paged_list)) in Hy; [congruence|].
  unfold get_page, totalCount in *. rewrite length_take, length_drop. nia.
Qed.

Lemma page_last_item_of_last_page_witness :
  0 < 30
  ∧ last (issues_upto 100) = Some (mk_issue 100)
  ∧ _get_page_last_item 30 (issues_upto 100)
      ((totalCount (issues_upto 100) - 1) `div` 30) = Return (mk_issue 100).
Proof.
  split; [lia|]. split; [reflexivity|].
  apply (page_last_item_of_last_page 30 (issues_upto 100) (mk_issue 100));
    [lia | reflexivity].
Defined.

(** ** An empty collection *)

Section WhenNeverRefused.
Context {A : Type} `{Numbered A}.

Lemma request_never_refused {B} (answer : B) (w : world) :
  limits w = [] → Remote.request answer w = (Return answer, w).
Proof. intros Hl. unfold Remote.request. by rewrite Hl. Qed.

Lemma remote_page_last_item_never_refused (page_len : Z) (paged_list : list A)
    (page_index : Z) (w : world) :
  limits w = [] →
  Remote._get_page_last_item page_len paged_list page_index w
  = (_get_page_last_item page_len paged_list page_index, w).
Proof.
  intros Hl. unfold Remote._get_page_last_item, Remote.get_page, mbind,
    Remote.session_bind.
  by rewrite request_never_refused.
Qed.

Lemma remote_bin_search_in_list_loop_never_refused (page_len : Z)
    (paged_list : list A) (val : Z) (w : world) (fuel : nat) :
  limits w = [] →
  ∀ low high,
    Remote.bin_search_in_list_loop page_len paged_list val fuel low high w
    = (bin_search_in_list_loop page_len paged_list val fuel low high, w).
Proof.
  intros Hl. induction fuel as [|fuel IH]; intros low high; simpl;
    destruct (low <? high - 1); try done.
  unfold mbind, Remote.session_bind, Remote.get_page.
  rewrite request_never_refused by done. unfold Remote.local.
  destruct (py_index (get_page page_len paged_list _) 0) as [first| |]; [|done..].
  rewrite remote_page_last_item_never_refused by done.
  destruct (_get_page_last_item page_len paged_list _) as [last| |]; [|done..].
  simpl. destruct (_ && _); [done|].
  destruct (val <? number first); [apply IH|].
  destruct (number last <? val); apply IH.
Qed.

Lemma remote_item_list_index_never_refused (page_len : Z) (paged_list : list A)
    (last_page_index val : Z) (w : world) :
  limits w = [] →
  Remote.item_list_index page_len paged_list last_page_index val w
  = (item_list_index page_len paged_list last_page_index val, w).
Proof.
  intros Hl. unfold Remote.item_list_index, item_list_index,
    Remote.__bin_search_in_list, __bin_search_in_list, mbind at 1,
    Remote.session_bind.
  rewrite remote_bin_search_in_list_loop_never_refused by done.
  destruct (bin_search_in_list_loop _ _ _ _ _ _) as [page_index| |]; [|done..].
  simpl. unfold mbind, Remote.session_bind, Remote.get_page.
  rewrite request_never_refused by done. unfold Remote.local.
  by destruct (__bin_search_in_page _ _ _).
Qed.

Lemma remote_get_api_item_indices_never_refused (page_len : Z)
    (paged_list : list A) (range_list : list Z) (w : world) :
  limits w = [] →
  Remote._get_api_item_indices page_len paged_list range_list w
  = (_get_api_item_indices page_len paged_list range_list, w).
Proof.
  intros Hl. unfold Remote._get_api_item_indices, _get_api_item_indices,
    Remote.totalCount, mbind at 1, Remote.session_bind.
  rewrite request_never_refused by done.
  destruct (page_len =? 0); [done|].
  unfold mbind at 1. rewrite remote_page_last_item_never_refused by done.
  destruct (_get_page_last_item _ _ _) as [last| |]; [|done..].
  simpl. unfold mbind at 1, Remote.local.
  destruct (py_index range_list 0) as [range_lo| |]; [|done..].
  simpl. unfold mbind at 1, Remote.session_bind.
  destruct (py_index range_list (-1)) as [range_hi| |]; [|done..].
  simpl. unfold mbind at 1, Remote.session_bind.
  rewrite remote_item_list_index_never_refused by done.
  destruct (item_list_index _ _ _ (Z.min range_lo _)) as [low_index| |]; [|done..].
  simpl. unfold mbind at 1, Remote.session_bind.
  rewrite remote_item_list_index_never_refused by done.
  by destruct (item_list_index _ _ _ (Z.min range_hi _)) as [high_index| |].
Qed.

(** When the service has no refusal in store, the run is the one of
    [get_data]. *)
Lemma remote_get_data_never_refused (key : string)
    (try_block : Z → world → outcome (gmap string (gmap string value)) * world)
    (page_len : Z) (paged_list : list A) (val_range : list Z) (w : world) :
  limits w = [] →
  Remote.get_data key try_block page_len paged_list val_range w
  = get_data key try_block page_len paged_list val_range w.
Proof.
  intros Hl. unfold Remote.get_data, get_data, mbind at 1, Remote.session_bind.
  rewrite remote_get_api_item_indices_never_refused by done.
  destruct (_get_api_item_indices _ _ _) as [range_list| |]; [|done..].
  simpl. unfold mbind at 1, Remote.session_bind, Remote.local.
  destruct (py_index range_list 0) as [start_val| |]; [|done..].
  simpl. unfold mbind at 1, Remote.session_bind.
  by destruct (py_index range_list 1) as [end_val| |].
Qed.
End WhenNeverRefused.

(** What the resolver comes to on an empty collection. *)
Lemma remote_get_api_item_indices_empty {A} `{Numbered A} (page_len : Z)
    (range_list : list Z) (w : world) :
  page_len ≠ 0 →
  ∃ w',
    Remote._get_api_item_indices page_len ([] : list A) range_list w
    = (Raise (if bool_decide (true ∈ take 2 (limits w))
              then RateLimitExceededException else IndexError), w')
    ∧ written w' = written w ∧ sleeps w' = sleeps w.
Proof.
  intros Hlen. unfold Remote._get_api_item_indices, Remote.totalCount,
    Remote._get_page_last_item, Remote.get_page, Remote.request, Remote.local,
    mbind, Remote.session_bind.
  destruct (Z.eqb_spec page_len 0) as [?|_]; [done|].
  destruct w as [[|[] [|[] rest]] wr sl]; simpl;
    rewrite ?(proj2 (Z.eqb_neq page_len 0) Hlen); simpl;
    unfold get_page; rewrite ?drop_nil, ?take_nil; simpl;
    eexists; (split; [reflexivity|done]).
Qed.

(** X7: on a repository without issues, or without pull requests, the run
    makes two requests, for the total count and for the last page, and ends
    there: in [RateLimitExceededException] when the service refuses one of
    the two, and else in [IndexError], when it looks for the last item of an
    empty page.  It does not sleep and nothing is written. *)
Theorem get_data_on_empty_collection_raises (c : cfg) (page_len : Z) (w : world) :
  page_len ≠ 0 →
  let e := if bool_decide (true ∈ take 2 (limits w))
           then RateLimitExceededException else IndexError in
  (∃ w', Remote.get_issues_data c page_len [] w = (Raise e, w')
         ∧ written w' = written w ∧ sleeps w' = sleeps w)
  ∧ (∃ w', Remote.get_pr_data c page_len [] w = (Raise e, w')
           ∧ written w' = written w ∧ sleeps w' = sleeps w).
Proof.
  intros Hlen e. unfold Remote.get_issues_data, Remote.get_pr_data, Remote.get_data.
  split.
  - destruct (remote_get_api_item_indices_empty (A := issue) page_len (cfg_range c)
                w Hlen) as (w' & Hw' & Hquiet).
    exists w'. split; [|done]. unfold mbind at 1, Remote.session_bind.
    by rewrite Hw'.
  - destruct (remote_get_api_item_indices_empty (A := pull_request) page_len
                (cfg_range c) w Hlen) as (w' & Hw' & Hquiet).
    exists w'. split; [|done]. unfold mbind at 1, Remote.session_bind.
    by rewrite Hw'.
Qed.

Lemma get_data_on_empty_collection_raises_witness :
  30 ≠ 0
  ∧ (∃ w', Remote.get_issues_data sample_cfg 30 [] (fresh_world [false; true; false])
           = (Raise RateLimitExceededException, w')
           ∧ written w' = [] ∧ sleeps w' = 0%nat)
  ∧ (∃ w', Remote.get_pr_data sample_cfg 30 [] (fresh_world [false; false; true])
           = (Raise IndexError, w')
           ∧ written w' = [] ∧ sleeps w' = 0%nat).
Proof.
  split; [lia|]. split.
  - exact (proj1 (get_data_on_empty_collection_raises sample_cfg 30
                    (fresh_world [false; true; false]) ltac:(lia))).
  - exact (proj2 (get_data_on_empty_collection_raises sample_cfg 30
                    (fresh_world [false; false; true]) ltac:(lia))).
Defined.

(** ** Collections too small for the page length *)

(** X8: a collection that is not empty and holds at most half a page of
    records makes [_get_api_item_indices] raise [IndexError] for every range:
    the one page is searched with the configured page length. *)
Theorem get_api_item_indices_small_collection_raises {A} `{Numbered A}
    (page_len : Z) (paged_list : list A) (range_list : list Z) :
  paged_list ≠ [] →
  range_list ≠ [] →
  totalCount paged_list ≤ page_len `div` 2 →
  _get_api_item_indices page_len paged_list range_list = Raise IndexError.
Proof.
  intros Hne Hrange Hsmall.
  assert (0 < totalCount paged_list) as Hpos
    by (unfold totalCount; destruct paged_list; [done | simpl; lia]).
  assert (2 ≤ page_len) as Hlen.
  { destruct (Z.lt_ge_cases page_len 2) as [Hlt|]; [|done].
    assert (page_len `div` 2 ≤ 0); [|lia].
    destruct (Z.le_gt_cases 0 page_len).
    - rewrite Z.div_small; lia.
    - apply Z.lt_le_incl, Z.div_lt_upper_bound; lia. }
  pose proof (Z.div_mod page_len 2) as Hdiv.
  pose proof (Z.mod_pos_bound page_len 2) as Hmod.
  unfold _get_api_item_indices.
  destruct (Z.eqb_spec page_len 0); [lia|].
  replace ((totalCount paged_list - 1) `div` page_len) with 0
    by (symmetry; apply Z.div_small; lia).
  assert (get_page page_len paged_list 0 = paged_list) as Hpage.
  { unfold get_page. simpl. rewrite drop_0. apply take_ge.
    unfold totalCount in *. lia. }
  unfold _get_page_last_item. rewrite Hpage.
  destruct (py_index_last_Return _ Hne) as [last ->]. simpl.
  destruct (py_index_Return range_list 0) as [lo ->].
  { destruct range_list; [done | simpl; lia]. }
  simpl. destruct (py_index_last_Return _ Hrange) as [hi ->]. simpl.
  assert (∀ val, item_list_index page_len paged_list 0 val = Raise IndexError)
    as Hitem; [|by rewrite !Hitem].
  intros val. unfold item_list_index, __bin_search_in_list. simpl.
  rewrite Hpage. unfold __bin_search_in_page.
  destruct (Z.to_nat page_len) as [|fuel] eqn:Hfuel; [lia|]. simpl.
  destruct (Z.ltb_spec 0 (page_len - 1)); [|lia].
  rewrite py_index_out_of_range; [done|].
  rewrite Z.add_0_l. unfold totalCount in *. lia.
Qed.

Lemma get_api_item_indices_small_collection_raises_witness :
  issues_upto 15 ≠ []
  ∧ [3; 9] ≠ ([] : list Z)
  ∧ totalCount (issues_upto 15) ≤ 30 `div` 2
  ∧ _get_api_item_indices 30 (issues_upto 15) [3; 9] = Raise IndexError.
Proof.
  split; [discriminate|]. split; [discriminate|].
  split; [vm_compute; discriminate|].
  apply (get_api_item_indices_small_collection_raises 30 (issues_upto 15) [3; 9]);
    [discriminate | discriminate | vm_compute; discriminate].
Defined.

(** ** Entries and the dispatch tables *)

Lemma dict_comprehension_KeyError {A} (dispatch : gmap string (A → value)) (obj : A)
    (fields : list string) :
  ¬ Forall (λ f, f ∈ dom dispatch) fields →
  ∀ acc, dict_comprehension dispatch obj fields acc = Raise KeyError.
Proof.
  induction fields as [|f fields IH]; intros Hbad acc; simpl.
  - destruct Hbad. constructor.
  - destruct (dispatch !! f) as [getter|] eqn:Hf; [|done].
    apply IH. intros Hall. apply Hbad. constructor; [|done].
    apply elem_of_dom. by exists getter.
Qed.

(** X9: the data of an issue.  When every configured issue field is a key of
    the issue table, the data has exactly the configured fields as keys, each
    with what its getter makes of the issue; when some configured field is
    not, building the data raises [KeyError]. *)
Theorem issue_item_data_fields (c : cfg) (cur_issue : issue) :
  (Forall (λ f, f ∈ dom ISSUE_CMD_DISPATCH) (cfg_issues_fields c) →
   ∃ d, issue_item_data c cur_issue = Return d
        ∧ dom d = list_to_set (cfg_issues_fields c)
        ∧ ∀ f getter, f ∈ cfg_issues_fields c →
                      ISSUE_CMD_DISPATCH !! f = Some getter →
                      d !! f = Some (getter cur_issue))
  ∧ (¬ Forall (λ f, f ∈ dom ISSUE_CMD_DISPATCH) (cfg_issues_fields c) →
     issue_item_data c cur_issue = Raise KeyError).
Proof.
  unfold issue_item_data. split.
  - intros Hvalid. rewrite Forall_forall in Hvalid.
    destruct (dict_comprehension_Return ISSUE_CMD_DISPATCH cur_issue _ Hvalid ∅)
      as [d Hd].
    exists d. split; [done|]. split.
    + by apply (dict_comprehension_dom _ _ _ _ Hd).
    + intros f getter Hf Hgetter.
      by rewrite (dict_comprehension_lookup _ _ _ _ _ Hd f), decide_True, Hgetter.
  - intros Hbad. by apply dict_comprehension_KeyError.
Qed.

Lemma issue_item_data_fields_witness :
  let unknown_cfg :=
    {| cfg_state := "closed"; cfg_range := [1; 2]; cfg_commit_fields := [];
       cfg_issues_fields := ["issue_title"; "issue_date"]; cfg_pr_fields := [] |} in
  Forall (λ f, f ∈ dom ISSUE_CMD_DISPATCH) (cfg_issues_fields sample_cfg)
  ∧ ¬ Forall (λ f, f ∈ dom ISSUE_CMD_DISPATCH) (cfg_issues_fields unknown_cfg)
  ∧ (∃ d, issue_item_data sample_cfg (mk_issue 7) = Return d
          ∧ dom d = list_to_set (cfg_issues_fields sample_cfg)
          ∧ ∀ f getter, f ∈ cfg_issues_fields sample_cfg →
                        ISSUE_CMD_DISPATCH !! f = Some getter →
                        d !! f = Some (getter (mk_issue 7)))
  ∧ issue_item_data unknown_cfg (mk_issue 7) = Raise KeyError.
Proof.
  intros unknown_cfg.
  assert (Forall (λ f, f ∈ dom ISSUE_CMD_DISPATCH) (cfg_issues_fields sample_cfg))
    as Hgood.
  { repeat constructor; apply elem_of_dom; by eexists. }
  assert (¬ Forall (λ f, f ∈ dom ISSUE_CMD_DISPATCH) (cfg_issues_fields unknown_cfg))
    as Hbad.
  { intros Hall. apply Forall_inv_tail, Forall_inv in Hall.
    apply elem_of_dom in Hall as [getter Hgetter]. vm_compute in Hgetter.
    discriminate. }
  split; [exact Hgood|]. split; [exact Hbad|]. split.
  - exact (proj1 (issue_item_data_fields sample_cfg (mk_issue 7)) Hgood).
  - exact (proj2 (issue_item_data_fields unknown_cfg (mk_issue 7)) Hbad).
Defined.

Lemma pr_field_not_commit_field (f : string) (getter : pull_request → value) :
  PR_CMD_DISPATCH !! f = Some getter → COMMIT_CMD_DISPATCH !! f = None.
Proof.
  intros Hpr. destruct (COMMIT_CMD_DISPATCH !! f) as [g|] eqn:Hc; [|done].
  assert (f ∈ dom COMMIT_CMD_DISPATCH) as Hdom by (apply elem_of_dom; by exists g).
  apply commit_field_not_pr_field in Hdom as [Hnone _]. congruence.
Qed.

(** X10: the entry of a pull request that is merged, or any pull request
    when the configured state is ["open"], whose last commit touched at least
    one file, the configured fields being keys of their tables: its keys are
    ["__pr_merged"], the configured pull-request fields and the configured
    commit fields; the flag holds whether the pull request is merged, a
    pull-request field what its getter makes of the pull request, and a
    commit field what its getter makes of the last commit. *)
Theorem pr_entry_with_commit_fields (c : cfg) (cur_pr : pull_request)
    (last_commit : commit) :
  pr_merged cur_pr = true ∨ cfg_state c = "open" →
  (∀ f, f ∈ cfg_pr_fields c → f ∈ dom PR_CMD_DISPATCH) →
  (∀ f, f ∈ cfg_commit_fields c → f ∈ dom COMMIT_CMD_DISPATCH) →
  get_last_commit cur_pr = Return last_commit →
  files last_commit ≠ [] →
  ∃ cur_entry,
    pr_entry c cur_pr = Return cur_entry
    ∧ dom cur_entry = {["__pr_merged"]} ∪ list_to_set (cfg_pr_fields c)
                      ∪ list_to_set (cfg_commit_fields c)
    ∧ cur_entry !! "__pr_merged" = Some (VBool (pr_merged cur_pr))
    ∧ (∀ f getter, f ∈ cfg_pr_fields c → PR_CMD_DISPATCH !! f = Some getter →
                   cur_entry !! f = Some (getter cur_pr))
    ∧ (∀ f getter, f ∈ cfg_commit_fields c → COMMIT_CMD_DISPATCH !! f = Some getter →
                   cur_entry !! f = Some (getter last_commit)).
Proof.
  intros Hfull Hpr Hcommit Hlast Hfiles.
  destruct (dict_comprehension_Return PR_CMD_DISPATCH cur_pr _ Hpr ∅) as [data Hdata].
  destruct (dict_comprehension_Return COMMIT_CMD_DISPATCH last_commit _ Hcommit ∅)
    as [cdata Hcdata].
  pose proof (dict_comprehension_lookup _ _ _ _ _ Hdata) as Hlookup.
  pose proof (dict_comprehension_lookup _ _ _ _ _ Hcdata) as Hclookup.
  exists (_merge_dicts (_merge_dicts {["__pr_merged" := VBool (pr_merged cur_pr)]} data)
            cdata).
  split.
  { unfold pr_entry.
    assert (pr_merged cur_pr || bool_decide (cfg_state c = "open") = true) as ->.
    { destruct Hfull as [-> | ->]; [done|]. by rewrite orb_true_r. }
    rewrite Hdata. simpl. rewrite Hlast. simpl.
    destruct (files last_commit) as [|file0 rest]; [done|]. simpl.
    by rewrite Hcdata. }
  split.
  { rewrite !merge_dicts_dom, dom_singleton_L.
    by rewrite (dict_comprehension_dom _ _ _ _ Hdata Hpr),
      (dict_comprehension_dom _ _ _ _ Hcdata Hcommit). }
  split.
  { rewrite !merge_dicts_lookup, Hclookup, Hlookup, lookup_empty.
    change (COMMIT_CMD_DISPATCH !! "__pr_merged") with (@None (commit → value)).
    change (PR_CMD_DISPATCH !! "__pr_merged") with (Some _get_pr_merged).
    simpl. rewrite lookup_singleton_eq.
    by destruct (decide (_ ∈ cfg_commit_fields c)), (decide (_ ∈ cfg_pr_fields c)). }
  split.
  - intros f getter Hf Hgetter.
    rewrite !merge_dicts_lookup, Hclookup, Hlookup, lookup_empty.
    rewrite (pr_field_not_commit_field _ _ Hgetter), (decide_True _ _ Hf), Hgetter.
    simpl. by destruct (decide (f ∈ cfg_commit_fields c)).
  - intros f getter Hf Hgetter.
    by rewrite !merge_dicts_lookup, Hclookup, (decide_True _ _ Hf), Hgetter.
Qed.

Lemma pr_entry_with_commit_fields_witness :
  (pr_merged (mk_pr 3 true [readme_commit]) = true ∨ cfg_state files_cfg = "open")
  ∧ get_last_commit (mk_pr 3 true [readme_commit]) = Return readme_commit
  ∧ files readme_commit ≠ []
  ∧ ∃ cur_entry,
      pr_entry files_cfg (mk_pr 3 true [readme_commit]) = Return cur_entry
      ∧ dom cur_entry = {["__pr_merged"]} ∪ list_to_set (cfg_pr_fields files_cfg)
                        ∪ list_to_set (cfg_commit_fields files_cfg)
      ∧ cur_entry !! "__pr_merged"
        = Some (VBool (pr_merged (mk_pr 3 true [readme_commit])))
      ∧ (∀ f getter, f ∈ cfg_pr_fields files_cfg →
                     PR_CMD_DISPATCH !! f = Some getter →
                     cur_entry !! f = Some (getter (mk_pr 3 true [readme_commit])))
      ∧ (∀ f getter, f ∈ cfg_commit_fields files_cfg →
                     COMMIT_CMD_DISPATCH !! f = Some getter →
                     cur_entry !! f = Some (getter readme_commit)).
Proof.
  split; [by left|]. split; [reflexivity|]. split; [discriminate|].
  apply (pr_entry_with_commit_fields files_cfg (mk_pr 3 true [readme_commit])
           readme_commit); [by left | | | reflexivity | discriminate].
  - intros f Hf. apply elem_of_dom.
    repeat (apply elem_of_cons in Hf as [->|Hf]; [by eexists|]).
    by apply elem_of_nil in Hf.
  - intros f Hf. apply elem_of_dom.
    repeat (apply elem_of_cons in Hf as [->|Hf]; [by eexists|]).
    by apply elem_of_nil in Hf.
Defined.

(** ** The files of a commit *)

Lemma string_app_assoc (s1 s2 s3 : string) : (s1 +:+ s2) +:+ s3 = s1 +:+ (s2 +:+ s3).
Proof.
  induction s1 as [|c s1 IH]; [done|].
  change (String c ((s1 +:+ s2) +:+ s3) = String c (s1 +:+ (s2 +:+ s3))).
  by rewrite IH.
Qed.

Lemma string_app_nil_r (s : string) : s +:+ "" = s.
Proof.
  induction s as [|c s IH]; [done|].
  change (String c (s +:+ "") = String c s). by rewrite IH.
Qed.

Lemma commit_files_loop_totals (file_list : list file) :
  ∀ names adds chgs patch_text rems status_str,
    foldl commit_files_step (names, adds, chgs, patch_text, rems, status_str) file_list
    = (names ++ ((λ f, VStr (filename f)) <$> file_list),
       adds + sum_of additions file_list,
       chgs + sum_of changes file_list,
       patch_text +:+ comma_joined (λ f, py_str (patch f)) file_list,
       rems + sum_of deletions file_list,
       status_str +:+ comma_joined status file_list).
Proof.
  induction file_list as [|f file_list IH]; intros; simpl.
  - unfold sum_of. simpl. by rewrite app_nil_r, !Z.add_0_r, !string_app_nil_r.
  - rewrite IH. unfold sum_of. simpl.
    rewrite <-app_assoc, <-!Z.add_assoc, !string_app_assoc. done.
Qed.

(** X11: the dictionary [_get_commit_files] makes of a commit lists the file
    names in the order of the files, gives the sums of the additions, changes
    and deletions over all files, and cleans the patches and the statuses of
    the files, each followed by a comma and a space, the statuses between
    quotes.  For a commit without files the patch text is the placeholder
    ["Nan"], the status the two quotes. *)
Theorem get_commit_files_totals (api_obj : commit) :
  _get_commit_files api_obj
  = VDict [("file_list", VList ((λ f, VStr (filename f)) <$> files api_obj));
           ("additions", VInt (sum_of additions (files api_obj)));
           ("changes", VInt (sum_of changes (files api_obj)));
           ("patch_text",
            VStr (_clean_str
                    (Some (comma_joined (λ f, py_str (patch f)) (files api_obj)))));
           ("removals", VInt (sum_of deletions (files api_obj)));
           ("status",
            VStr (_clean_str
                    (Some (QUOTE +:+ comma_joined status (files api_obj) +:+ QUOTE))))]
  ∧ (files api_obj = [] →
     _get_commit_files api_obj
     = VDict [("file_list", VList []); ("additions", VInt 0); ("changes", VInt 0);
              ("patch_text", VStr "Nan"); ("removals", VInt 0);
              ("status", VStr (QUOTE +:+ QUOTE))]).
Proof.
  assert (_get_commit_files api_obj
          = VDict [("file_list", VList ((λ f, VStr (filename f)) <$> files api_obj));
                   ("additions", VInt (sum_of additions (files api_obj)));
                   ("changes", VInt (sum_of changes (files api_obj)));
                   ("patch_text",
                    VStr (_clean_str
                            (Some (comma_joined (λ f, py_str (patch f))
                                     (files api_obj)))));
                   ("removals", VInt (sum_of deletions (files api_obj)));
                   ("status",
                    VStr (_clean_str
                            (Some (QUOTE +:+ comma_joined status (files api_obj)
                                   +:+ QUOTE))))]) as Htotals.
  { unfold _get_commit_files. by rewrite commit_files_loop_totals. }
  split; [done|]. intros Hnone. rewrite Htotals, Hnone. reflexivity.
Qed.

Lemma get_commit_files_totals_witness :
  files empty_commit = []
  ∧ _get_commit_files empty_commit
    = VDict [("file_list", VList []); ("additions", VInt 0); ("changes", VInt 0);
             ("patch_text", VStr "Nan"); ("removals", VInt 0);
             ("status", VStr (QUOTE +:+ QUOTE))].
Proof.
  split; [reflexivity|].
  apply (proj2 (get_commit_files_totals empty_commit)). reflexivity.
Defined.

(** ** Merging, as an operation *)

(** X12: [_merge_dicts] is associative, the empty dictionary is neutral on
    either side, merging a dictionary into itself changes nothing, and
    merging the same dictionary in twice is merging it in once. *)
Theorem merge_dicts_laws {V} (a b c : gmap string V) :
  _merge_dicts (_merge_dicts a b) c = _merge_dicts a (_merge_dicts b c)
  ∧ _merge_dicts a ∅ = a
  ∧ _merge_dicts ∅ a = a
  ∧ _merge_dicts a a = a
  ∧ _merge_dicts (_merge_dicts a b) b = _merge_dicts a b.
Proof.
  repeat split; apply map_eq; intros k; rewrite ?merge_dicts_lookup, ?lookup_empty;
    by repeat case_match.
Qed.

(** ** Fetching the paginated list *)

Lemma get_paged_list_loop_refused (the_repo : repository) (list_type : string)
    (k : nat) :
  ∀ fuel rest written0 sleeps0,
    (k < fuel)%nat →
    head rest ≠ Some true →
    get_paged_list_loop the_repo list_type fuel
      {| limits := replicate k true ++ rest; written := written0; sleeps := sleeps0 |}
    = (Return (if decide (list_type = "issues")
               then IssuesPagedList (repo_issues the_repo)
               else PullsPagedList (repo_pulls the_repo)),
       {| limits := tail rest; written := written0; sleeps := (sleeps0 + k)%nat |}).
Proof.
  induction k as [|k IH]; intros fuel rest written0 sleeps0 Hfuel Hrest;
    (destruct fuel as [|fuel]; [lia|]); simpl.
  - unfold get_repo. simpl. rewrite Nat.add_0_r.
    destruct rest as [|[] rest]; [|done|]; by destruct (decide _).
  - unfold get_repo, sleep_gh_session. simpl.
    replace (sleeps0 + S k)%nat with (S sleeps0 + k)%nat by lia.
    apply IH; [lia | exact Hrest].
Qed.

(** X13: [__get_paged_list] sleeps once for every time the service refuses
    the repository, then returns, never letting the rate limit through: the
    issues when asked for ["issues"], the pull requests when asked for
    anything else.  Nothing is written. *)
Theorem get_paged_list_waits_out_refusals (the_repo : repository)
    (list_type : string) (k : nat) (rest : list bool) (w : world) :
  limits w = replicate k true ++ rest →
  head rest ≠ Some true →
  __get_paged_list the_repo list_type w
  = (Return (if decide (list_type = "issues")
             then IssuesPagedList (repo_issues the_repo)
             else PullsPagedList (repo_pulls the_repo)),
     {| limits := tail rest; written := written w; sleeps := (sleeps w + k)%nat |}).
Proof.
  intros Hlimits Hrest. destruct w as [l wr sl]. simpl in Hlimits. subst l.
  unfold __get_paged_list. cbn [limits written sleeps].
  apply get_paged_list_loop_refused; [|done].
  rewrite length_app, length_replicate. lia.
Qed.

Lemma get_paged_list_waits_out_refusals_witness :
  let the_repo := {| repo_issues := issues_upto 3; repo_pulls := sample_prs |} in
  limits (fresh_world [true; true; false; true]) = replicate 2 true ++ [false; true]
  ∧ head [false; true] ≠ Some true
  ∧ __get_paged_list the_repo "pr" (fresh_world [true; true; false; true])
    = (Return (if decide ("pr" = "issues")
               then IssuesPagedList (repo_issues the_repo)
               else PullsPagedList (repo_pulls the_repo)),
       {| limits := tail [false; true];
          written := written (fresh_world [true; true; false; true]);
          sleeps := (sleeps (fresh_world [true; true; false; true]) + 2)%nat |}).
Proof.
  intros the_repo. split; [reflexivity|]. split; [discriminate|].
  apply (get_paged_list_waits_out_refusals the_repo "pr" 2 [false; true]
           (fresh_world [true; true; false; true])); [reflexivity | discriminate].
Defined.

(** ** Runs that return *)

Lemma paged_list_getitem_sleeps {A} (paged_list : list A) (index : Z)
    (w w' : world) (r : outcome A) :
  paged_list_getitem paged_list index w = (r, w') → sleeps w' = sleeps w.
Proof.
  unfold paged_list_getitem. destruct (limits w) as [|[] rest]; by intros [= <- <-].
Qed.

Lemma issues_try_sleeps (c : cfg) (issues_paged_list : list issue) (i : Z)
    (w w' : world) r :
  issues_try c issues_paged_list i w = (r, w') → sleeps w' = sleeps w.
Proof.
  unfold issues_try.
  destruct (paged_list_getitem _ _ _) as [[cur|e|] w1] eqn:Hget;
    intros [= <- <-]; by apply paged_list_getitem_sleeps in Hget.
Qed.

Lemma pr_try_sleeps (c : cfg) (pr_paged_list : list pull_request) (i : Z)
    (w w' : world) r :
  pr_try c pr_paged_list i w = (r, w') → sleeps w' = sleeps w.
Proof.
  unfold pr_try.
  destruct (paged_list_getitem _ _ _) as [[cur|e|] w1] eqn:Hget;
    intros [= <- <-]; by apply paged_list_getitem_sleeps in Hget.
Qed.

Section ReturningRuns.
Variable key : string.
Variable try_block :
  Z → world → outcome (gmap string (gmap string value)) * world.
Hypothesis try_block_written :
  ∀ i w r w', try_block i w = (r, w') → written w' = written w.
Hypothesis try_block_sleeps :
  ∀ i w r w', try_block i w = (r, w') → sleeps w' = sleeps w.

(** A loop that returns has met no refusal: it neither wrote nor slept, and
    its dictionary still has its key. *)
Lemma extraction_loop_Return_quiet (end_val : Z) (fuel : nat) :
  ∀ data_dict start_val w data_dict' w',
    is_Some (data_dict !! key) →
    extraction_loop key try_block end_val fuel data_dict start_val w
    = (Return data_dict', w') →
    written w' = written w ∧ sleeps w' = sleeps w ∧ is_Some (data_dict' !! key).
Proof.
  induction fuel as [|fuel IH]; intros data_dict start_val w data_dict' w' Hkey; simpl.
  - destruct (start_val <? end_val + 1); [done|]. by intros [= <- <-].
  - destruct (Z.ltb_spec start_val (end_val + 1)) as [Hlt|]; [|by intros [= <- <-]].
    destruct (loop_body key try_block data_dict start_val w) as [[[d i]|e|] w1]
      eqn:Hbody; [|done..].
    apply loop_body_Return in Hbody
      as [(-> & -> & w0 & Htry & ->) | (-> & cur & items & Htry & Hitems & ->)].
    + intros Hloop.
      pose proof (extraction_loop_without_key_never_returns key try_block end_val
                    fuel ∅ start_val
                    (sleep_gh_session (write_merged_dict_to_json data_dict w0))
                    (lookup_empty _) Hlt data_dict') as Hnever.
      by rewrite Hloop in Hnever.
    + intros Hloop. apply IH in Hloop as (Hw & Hs & Hk).
      * by rewrite Hw, Hs, (try_block_written _ _ _ _ Htry),
          (try_block_sleeps _ _ _ _ Htry).
      * rewrite lookup_insert_eq. by eexists.
Qed.

Lemma get_data_Return_quiet {A} `{Numbered A} (page_len : Z) (paged_list : list A)
    (val_range : list Z) (w w' : world) :
  get_data key try_block page_len paged_list val_range w = (Return (), w') →
  sleeps w' = sleeps w
  ∧ ∃ data_dict, written w' = written w ++ [data_dict] ∧ is_Some (data_dict !! key).
Proof.
  unfold get_data.
  destruct (_ ≫= _) as [[start_val end_val]|e|]; [|done..].
  destruct (extraction_loop _ _ _ _ _ _ _) as [[d|e|] w1] eqn:Hloop; [|done..].
  intros [= <-].
  apply extraction_loop_Return_quiet in Hloop as (Hw & Hs & Hk).
  - split; [done|]. exists d. simpl. by rewrite Hw.
  - rewrite lookup_singleton_eq. by eexists.
Qed.
End ReturningRuns.

(** X14: a run of [get_issues_data] or of [get_pr_data] that returns has met
    no refusal of the service inside its loop: it did not sleep, and it wrote
    to the output file exactly once, a dictionary that has the ["issue"]
    (["pr"]) key. *)
Theorem returning_run_was_never_interrupted (c : cfg) (page_len : Z)
    (issues_paged_list : list issue) (pr_paged_list : list pull_request)
    (w w' : world) :
  (get_issues_data c page_len issues_paged_list w = (Return (), w') →
   sleeps w' = sleeps w
   ∧ ∃ data_dict, written w' = written w ++ [data_dict]
                  ∧ is_Some (data_dict !! "issue"))
  ∧ (get_pr_data c page_len pr_paged_list w = (Return (), w') →
     sleeps w' = sleeps w
     ∧ ∃ data_dict, written w' = written w ++ [data_dict]
                    ∧ is_Some (data_dict !! "pr")).
Proof.
  split; intros Hrun.
  - exact (get_data_Return_quiet "issue" (issues_try c issues_paged_list)
             (λ i w0 r w0', issues_try_written c _ i w0 w0' r)
             (λ i w0 r w0', issues_try_sleeps c _ i w0 w0' r)
             _ _ _ _ _ Hrun).
  - exact (get_data_Return_quiet "pr" (pr_try c pr_paged_list)
             (λ i w0 r w0', pr_try_written c _ i w0 w0' r)
             (λ i w0 r w0', pr_try_sleeps c _ i w0 w0' r)
             _ _ _ _ _ Hrun).
Qed.

Lemma returning_run_was_never_interrupted_witness :
  ∃ w',
    get_issues_data sample_cfg 2 (issues_upto 2) (fresh_world [false]) = (Return (), w')
    ∧ sleeps w' = sleeps (fresh_world [false])
    ∧ ∃ data_dict, written w' = written (fresh_world [false]) ++ [data_dict]
                   ∧ is_Some (data_dict !! "issue").
Proof.
  eexists. split; [vm_compute; reflexivity|].
  apply (proj1 (returning_run_was_never_interrupted sample_cfg 2 (issues_upto 2)
                  [] (fresh_world [false]) _)).
  vm_compute. reflexivity.
Defined.

(** ** Runs the service never refuses *)

Section MergedEntries.
Variable entry : Z → gmap string (gmap string value).

Lemma merged_entries_dom (indices : list Z) :
  ∀ items k,
    k ∈ dom (foldl (λ acc j, _merge_dicts acc (entry j)) items indices)
    ↔ k ∈ dom items ∨ ∃ j, j ∈ indices ∧ k ∈ dom (entry j).
Proof.
  induction indices as [|i indices IH]; intros items k; simpl.
  - split; [by left|]. intros [?|(j & Hj & _)]; [done|]. by apply elem_of_nil in Hj.
  - rewrite IH, merge_dicts_dom, elem_of_union. split.
    + intros [[?|?]|(j & Hj & Hk)]; [by left | right; exists i | right; exists j].
      * split; [apply list_elem_of_here | done].
      * split; [by apply list_elem_of_further | done].
    + intros [?|(j & Hj & Hk)]; [by left; left|].
      apply elem_of_cons in Hj as [->|Hj]; [by left; right|].
      right. by exists j.
Qed.

Lemma merged_entries_lookup (indices : list Z) :
  ∀ items k d,
    foldl (λ acc j, _merge_dicts acc (entry j)) items indices !! k = Some d →
    items !! k = Some d ∨ ∃ j, j ∈ indices ∧ entry j !! k = Some d.
Proof.
  induction indices as [|i indices IH]; intros items k d; simpl; [by left|].
  intros [Hd|(j & Hj & Hd)]%IH.
  - rewrite merge_dicts_lookup in Hd.
    destruct (entry i !! k) as [d'|] eqn:Hi; [|by left].
    right. exists i. split; [apply list_elem_of_here | congruence].
  - right. exists j. split; [by apply list_elem_of_further | done].
Qed.
End MergedEntries.

Section QuietRuns.
Variable key : string.
Variable try_block :
  Z → world → outcome (gmap string (gmap string value)) * world.
Variable entry : Z → gmap string (gmap string value).

(** When the [try] block succeeds at every index left, without a change to
    the world, the loop merges the entries of the indices from [start_val] to
    [end_val], in this order, into what [data_dict] holds under its key. *)
Lemma extraction_loop_merges_entries (end_val : Z) (w : world) (fuel : nat) :
  ∀ data_dict start_val items,
    data_dict !! key = Some items →
    (∀ j, start_val ≤ j ≤ end_val → try_block j w = (Return (entry j), w)) →
    (Z.to_nat (end_val + 1 - start_val) ≤ fuel)%nat →
    extraction_loop key try_block end_val fuel data_dict start_val w
    = (Return (<[key := foldl (λ acc j, _merge_dicts acc (entry j)) items
                          (seqZ start_val (end_val + 1 - start_val))]> data_dict),
       w).
Proof.
  induction fuel as [|fuel IH]; intros data_dict start_val items Hkey Htry Hfuel;
    simpl; destruct (Z.ltb_spec start_val (end_val + 1)) as [Hlt|Hge];
    try lia; try (rewrite seqZ_nil by lia; simpl; by rewrite insert_id).
  unfold loop_body. rewrite Htry by lia. rewrite Hkey.
  rewrite (IH _ _ (_merge_dicts items (entry start_val)));
    [|by rewrite lookup_insert_eq | intros j Hj; apply Htry; lia | lia].
  rewrite insert_insert_eq. rewrite (seqZ_cons start_val) by lia. simpl.
  replace (Z.succ start_val) with (start_val + 1) by lia.
  by replace (Z.pred (end_val + 1 - start_val))
    with (end_val + 1 - (start_val + 1)) by lia.
Qed.
End QuietRuns.

Section FetchAndFile.
Context {A : Type} `{Numbered A}.
Variable key : string.
Variable paged_list : list A.
Variable make : A → outcome (gmap string value).
Variable try_block :
  Z → world → outcome (gmap string (gmap string value)) * world.

(** What the [try] blocks of both loops do: fetch the item, make its entry,
    file it under its number. *)
Hypothesis try_block_fetches :
  ∀ i w,
    try_block i w
    = match paged_list_getitem paged_list i w with
      | (Return x, w') => (d ← make x; Return {[pretty (number x) := d]}, w')
      | (Raise e, w') => (Raise e, w')
      | (OutOfFuel, w') => (OutOfFuel, w')
      end.

Lemma get_data_never_refused (page_len : Z) (val_range : list Z) (w : world)
    (start_val end_val : Z) :
  limits w = [] →
  _get_api_item_indices page_len paged_list val_range = Return [start_val; end_val] →
  0 ≤ start_val → end_val < totalCount paged_list →
  (∀ (j : nat) x, start_val ≤ Z.of_nat j ≤ end_val → paged_list !! j = Some x →
                  ∃ d, make x = Return d) →
  ∃ items,
    get_data key try_block page_len paged_list val_range w
    = (Return (), write_merged_dict_to_json {[key := items]} w)
    ∧ (∀ k, k ∈ dom items
            ↔ ∃ (j : nat) x, start_val ≤ Z.of_nat j ≤ end_val
                             ∧ paged_list !! j = Some x ∧ k = pretty (number x))
    ∧ (∀ k d, items !! k = Some d →
              ∃ (j : nat) x, start_val ≤ Z.of_nat j ≤ end_val
                             ∧ paged_list !! j = Some x ∧ k = pretty (number x)
                             ∧ make x = Return d).
Proof.
  intros Hlimits Hrange Hstart Hend Hmake.
  set (entry := λ j : Z,
         match py_index paged_list j with
         | Return x =>
             match make x with
             | Return d => ({[pretty (number x) := d]} : gmap string (gmap string value))
             | _ => ∅
             end
         | _ => ∅
         end).
  assert (∀ j, start_val ≤ j ≤ end_val →
               ∃ x d, paged_list !! Z.to_nat j = Some x ∧ make x = Return d
                      ∧ py_index paged_list j = Return x
                      ∧ entry j = {[pretty (number x) := d]}) as Hentry.
  { intros j Hj. unfold totalCount in Hend.
    destruct (py_index_Return paged_list j) as [x Hx]; [lia|].
    pose proof (py_index_Return_lookup _ _ _ Hx ltac:(lia)) as Hl.
    destruct (Hmake (Z.to_nat j) x) as [d Hd]; [lia | done |].
    exists x, d. unfold entry. by rewrite Hx, Hd. }
  assert (∀ j, start_val ≤ j ≤ end_val → try_block j w = (Return (entry j), w))
    as Htry.
  { intros j (x & d & _ & Hd & Hx & ->)%Hentry.
    rewrite try_block_fetches. unfold paged_list_getitem.
    rewrite Hlimits, Hx. by rewrite Hd. }
  exists (foldl (λ acc j, _merge_dicts acc (entry j)) ∅
            (seqZ start_val (end_val + 1 - start_val))).
  split; [|split].
  - unfold get_data. rewrite Hrange, Hlimits.
    change (Return [start_val; end_val] ≫= _)
      with (@Return (Z * Z) (start_val, end_val)).
    cbv beta iota.
    rewrite (extraction_loop_merges_entries key try_block entry end_val w _ _ _ ∅);
      [|by rewrite lookup_singleton_eq | exact Htry | simpl; lia].
    by rewrite insert_singleton_eq.
  - intros k. rewrite merged_entries_dom, dom_empty_L. split.
    + intros [Hk|(j & Hj & Hk)]; [by apply elem_of_empty in Hk|].
      apply elem_of_seqZ in Hj.
      destruct (Hentry j) as (x & d & Hl & _ & _ & Hej); [lia|].
      rewrite Hej, dom_singleton_L in Hk. apply elem_of_singleton in Hk.
      exists (Z.to_nat j), x. split; [lia | done].
    + intros (j & x & Hj & Hl & ->). right. exists (Z.of_nat j).
      split; [apply elem_of_seqZ; lia|].
      destruct (Hentry (Z.of_nat j)) as (x' & d & Hl' & _ & _ & ->); [lia|].
      rewrite Nat2Z.id in Hl'. simplify_eq.
      rewrite dom_singleton_L. by apply elem_of_singleton.
  - intros k d [Hd|(j & Hj & Hd)]%merged_entries_lookup; [by rewrite lookup_empty in Hd|].
    apply elem_of_seqZ in Hj.
    destruct (Hentry j) as (x & d' & Hl & Hd' & _ & Hej); [lia|].
    rewrite Hej in Hd. apply lookup_singleton_Some in Hd as [<- <-].
    exists (Z.to_nat j), x. split; [lia | done].
Qed.
End FetchAndFile.

(** X15: a run the service never refuses.  Let the range resolve to the
    indices [start_val] and [end_val] inside the collection, and let an entry
    be made of every record between them.  Then [get_issues_data] returns
    after writing once, the dictionary [{"issue": items}], where [items] has
    a key for the number of every record from [start_val] to [end_val] and no
    other key, and holds under each key the data made of a record of that
    number in that range; and the same for [get_pr_data] under ["pr"]. *)
Theorem never_refused_run_writes_the_range (c : cfg) (page_len : Z)
    (issues_paged_list : list issue) (pr_paged_list : list pull_request)
    (w : world) (start_val end_val : Z) :
  limits w = [] →
  0 ≤ start_val →
  (_get_api_item_indices page_len issues_paged_list (cfg_range c)
   = Return [start_val; end_val] →
   end_val < totalCount issues_paged_list →
   Forall (λ f, f ∈ dom ISSUE_CMD_DISPATCH) (cfg_issues_fields c) →
   ∃ items,
     get_issues_data c page_len issues_paged_list w
     = (Return (), write_merged_dict_to_json {["issue" := items]} w)
     ∧ (∀ k, k ∈ dom items
             ↔ ∃ (j : nat) x, start_val ≤ Z.of_nat j ≤ end_val
                              ∧ issues_paged_list !! j = Some x
                              ∧ k = pretty (number x))
     ∧ (∀ k d, items !! k = Some d →
               ∃ (j : nat) x, start_val ≤ Z.of_nat j ≤ end_val
                              ∧ issues_paged_list !! j = Some x
                              ∧ k = pretty (number x)
                              ∧ issue_item_data c x = Return d))
  ∧ (_get_api_item_indices page_len pr_paged_list (cfg_range c)
     = Return [start_val; end_val] →
     end_val < totalCount pr_paged_list →
     (∀ (j : nat) x, start_val ≤ Z.of_nat j ≤ end_val → pr_paged_list !! j = Some x →
                     ∃ d, pr_entry c x = Return d) →
     ∃ items,
       get_pr_data c page_len pr_paged_list w
       = (Return (), write_merged_dict_to_json {["pr" := items]} w)
       ∧ (∀ k, k ∈ dom items
               ↔ ∃ (j : nat) x, start_val ≤ Z.of_nat j ≤ end_val
                                ∧ pr_paged_list !! j = Some x
                                ∧ k = pretty (number x))
       ∧ (∀ k d, items !! k = Some d →
                 ∃ (j : nat) x, start_val ≤ Z.of_nat j ≤ end_val
                                ∧ pr_paged_list !! j = Some x
                                ∧ k = pretty (number x)
                                ∧ pr_entry c x = Return d)).
Proof.
  intros Hlimits Hstart. split.
  - intros Hrange Hend Hvalid.
    apply (get_data_never_refused "issue" issues_paged_list (issue_item_data c)
             (issues_try c issues_paged_list)); try done.
    intros j x _ _. rewrite Forall_forall in Hvalid.
    apply (dict_comprehension_Return ISSUE_CMD_DISPATCH x _ Hvalid ∅).
  - intros Hrange Hend Hmake.
    apply (get_data_never_refused "pr" pr_paged_list (pr_entry c)
             (pr_try c pr_paged_list)); try done.
Qed.

Lemma never_refused_run_writes_the_range_witness :
  limits (fresh_world []) = []
  ∧ 0 ≤ 0
  ∧ _get_api_item_indices 2 (issues_upto 2) (cfg_range sample_cfg) = Return [0; 1]
  ∧ 1 < totalCount (issues_upto 2)
  ∧ Forall (λ f, f ∈ dom ISSUE_CMD_DISPATCH) (cfg_issues_fields sample_cfg)
  ∧ ∃ items,
      get_issues_data sample_cfg 2 (issues_upto 2) (fresh_world [])
      = (Return (), write_merged_dict_to_json {["issue" := items]} (fresh_world []))
      ∧ (∀ k, k ∈ dom items
              ↔ ∃ (j : nat) x, 0 ≤ Z.of_nat j ≤ 1
                               ∧ issues_upto 2 !! j = Some x
                               ∧ k = pretty (number x))
      ∧ (∀ k d, items !! k = Some d →
                ∃ (j : nat) x, 0 ≤ Z.of_nat j ≤ 1
                               ∧ issues_upto 2 !! j = Some x
                               ∧ k = pretty (number x)
                               ∧ issue_item_data sample_cfg x = Return d).
Proof.
  assert (Forall (λ f, f ∈ dom ISSUE_CMD_DISPATCH) (cfg_issues_fields sample_cfg))
    as Hvalid by (repeat constructor; apply elem_of_dom; by eexists).
  split; [reflexivity|]. split; [lia|]. split; [by vm_compute|].
  split; [by vm_compute|]. split; [exact Hvalid|].
  apply (proj1 (never_refused_run_writes_the_range sample_cfg 2 (issues_upto 2) []
                  (fresh_world []) 0 1 eq_refl ltac:(lia)));
    [by vm_compute | by vm_compute | exact Hvalid].
Defined.

(** ** Cleaning texts *)

Lemma lstrip_split (s : list N) :
  ∃ p, s = p ++ Unicode.lstrip s
       ∧ Forall (λ c, Unicode.py_isspace c = true) p
       ∧ ∀ c, head (Unicode.lstrip s) = Some c → Unicode.py_isspace c = false.
Proof.
  induction s as [|c s (p & Hs & Hp & Hhead)].
  - exists []. by repeat split.
  - simpl. destruct (Unicode.py_isspace c) eqn:Hc.
    + exists (c :: p). split; [by rewrite Hs at 1|]. split; [by constructor | done].
    + exists []. repeat split; [done|]. by intros c' [= <-].
Qed.

(** [strip] takes a run of whitespace off either end, and as much as there
    is. *)
Lemma strip_split (s : list N) :
  ∃ p q, s = p ++ Unicode.strip s ++ q
         ∧ Forall (λ c, Unicode.py_isspace c = true) p
         ∧ Forall (λ c, Unicode.py_isspace c = true) q
         ∧ (∀ c, head (Unicode.strip s) = Some c → Unicode.py_isspace c = false)
         ∧ (∀ c, last (Unicode.strip s) = Some c → Unicode.py_isspace c = false).
Proof.
  destruct (lstrip_split s) as (p & Hs & Hp & Hhead).
  destruct (lstrip_split (reverse (Unicode.lstrip s))) as (q & Ht & Hq & Hlast).
  apply (f_equal reverse) in Ht. rewrite reverse_involutive, reverse_app in Ht.
  unfold Unicode.strip.
  exists p, (reverse q). rewrite <-Ht. split; [done|]. split; [done|].
  split; [by apply Forall_reverse|]. split.
  - intros c Hc. apply Hhead. rewrite Ht.
    destruct (reverse (Unicode.lstrip (reverse (Unicode.lstrip s)))); [done|].
    exact Hc.
  - intros c Hc. apply Hlast. by rewrite last_reverse in Hc.
Qed.

Lemma line_breaks_are_space :
  Unicode.py_isspace Unicode.CR = true ∧ Unicode.py_isspace Unicode.LF = true.
Proof. by vm_compute. Qed.

Lemma clean_str_strips (s : list N) :
  s ≠ [] →
  Unicode._clean_str (Some s)
  = Unicode.strip (filter (λ c, c ≠ Unicode.CR ∧ c ≠ Unicode.LF) s).
Proof.
  intros Hs. unfold Unicode._clean_str, Unicode.remove_char.
  destruct (decide (s = [])); [done|]. cbv zeta.
  rewrite list_filter_filter. f_equal. apply list_filter_iff. intros c. tauto.
Qed.

(** *** The texts of 8-bit characters *)

Lemma chars_app (s t : string) : chars (s +:+ t) = chars s ++ chars t.
Proof.
  induction s as [|c s IH]; [done|].
  change (c :: chars (s +:+ t) = c :: chars s ++ chars t). by rewrite IH.
Qed.

Lemma chars_rev_app (s acc : string) :
  chars (String.rev_app s acc) = reverse (chars s) ++ chars acc.
Proof.
  revert acc. induction s as [|c s IH]; intros acc; [done|].
  change (chars (String.rev_app s (String c acc))
          = reverse (c :: chars s) ++ chars acc).
  rewrite IH, reverse_cons, <-app_assoc. done.
Qed.

Lemma code_points_rev (s : string) :
  Unicode.code_points (String.rev s) = reverse (Unicode.code_points s).
Proof.
  unfold Unicode.code_points, String.rev.
  by rewrite chars_rev_app, app_nil_r, fmap_reverse.
Qed.

Lemma code_points_inj (s t : string) :
  Unicode.code_points s = Unicode.code_points t → s = t.
Proof.
  unfold Unicode.code_points, chars. intros Heq.
  assert (Inj (=) (=) N_of_ascii) as Hinj.
  { intros a b Hab. by rewrite <-(ascii_N_embedding a), <-(ascii_N_embedding b), Hab. }
  apply (inj (fmap N_of_ascii)) in Heq.
  by rewrite <-(string_of_list_ascii_of_string s),
    <-(string_of_list_ascii_of_string t), Heq.
Qed.

(** Below code point 256 the two notions of whitespace agree. *)
Lemma isspace_code_point (c : ascii) :
  py_isspace c = Unicode.py_isspace (N_of_ascii c).
Proof. by destruct c as [[] [] [] [] [] [] [] []]. Qed.

Lemma code_points_lstrip (s : string) :
  Unicode.code_points (lstrip s) = Unicode.lstrip (Unicode.code_points s).
Proof.
  induction s as [|c s IH]; [done|].
  change (Unicode.code_points (String c s))
    with (N_of_ascii c :: Unicode.code_points s).
  simpl. rewrite <-isspace_code_point. by destruct (py_isspace c).
Qed.

Lemma code_points_strip (s : string) :
  Unicode.code_points (strip s) = Unicode.strip (Unicode.code_points s).
Proof.
  unfold strip, Unicode.strip.
  by rewrite code_points_rev, code_points_lstrip, code_points_rev,
    code_points_lstrip.
Qed.

Lemma code_points_remove_char (c : ascii) (s : string) :
  Unicode.code_points (remove_char c s)
  = Unicode.remove_char (N_of_ascii c) (Unicode.code_points s).
Proof.
  unfold Unicode.remove_char. induction s as [|c' s IH]; [done|].
  change (Unicode.code_points (String c' s))
    with (N_of_ascii c' :: Unicode.code_points s).
  simpl. destruct (decide (c' = c)) as [->|Hne].
  - by rewrite filter_cons_False by (by intros ?).
  - rewrite filter_cons_True.
    + change (Unicode.code_points (String c' (remove_char c s)))
        with (N_of_ascii c' :: Unicode.code_points (remove_char c s)).
      by rewrite IH.
    + intros Heq. apply Hne.
      by rewrite <-(ascii_N_embedding c'), <-(ascii_N_embedding c), Heq.
Qed.

(** On the texts of 8-bit characters, [_clean_str] is the [_clean_str] of
    all texts. *)
Lemma clean_str_code_points (str_to_clean : option string) :
  Unicode.code_points (_clean_str str_to_clean)
  = Unicode._clean_str (Unicode.code_points <$> str_to_clean).
Proof.
  destruct str_to_clean as [s|]; [|done]. simpl. unfold _clean_str.
  destruct (decide (s = "")) as [->|Hs]; [done|].
  rewrite decide_False.
  - by rewrite code_points_strip, !code_points_remove_char.
  - intros Hnil. apply Hs. by apply code_points_inj.
Qed.

(** X16: whatever text [_clean_str] is given, also none, its result holds no
    carriage return and no newline, and neither begins nor ends with a
    whitespace character. *)
Theorem clean_str_result_is_clean (str_to_clean : option (list N)) :
  (Unicode.CR ∉ Unicode._clean_str str_to_clean)
  ∧ (Unicode.LF ∉ Unicode._clean_str str_to_clean)
  ∧ (∀ c, head (Unicode._clean_str str_to_clean) = Some c →
          Unicode.py_isspace c = false)
  ∧ (∀ c, last (Unicode._clean_str str_to_clean) = Some c →
          Unicode.py_isspace c = false).
Proof.
  assert ((Unicode.CR ∉ Unicode.NAN) ∧ (Unicode.LF ∉ Unicode.NAN)
          ∧ (∀ c, head Unicode.NAN = Some c → Unicode.py_isspace c = false)
          ∧ (∀ c, last Unicode.NAN = Some c → Unicode.py_isspace c = false))
    as Hplace.
  { repeat split.
    - intros Hc. repeat (apply elem_of_cons in Hc as [?|Hc]; [done|]).
      by apply elem_of_nil in Hc.
    - intros Hc. repeat (apply elem_of_cons in Hc as [?|Hc]; [done|]).
      by apply elem_of_nil in Hc.
    - by intros c [= <-].
    - by intros c [= <-]. }
  destruct str_to_clean as [s|]; [|exact Hplace].
  destruct (decide (s = [])) as [->|Hs]; [exact Hplace|].
  rewrite (clean_str_strips s Hs).
  destruct (strip_split (filter (λ c, c ≠ Unicode.CR ∧ c ≠ Unicode.LF) s))
    as (p & q & Hpq & _ & _ & Hhead & Hlast).
  assert (∀ c, c ∈ Unicode.strip (filter (λ c, c ≠ Unicode.CR ∧ c ≠ Unicode.LF) s) →
               c ≠ Unicode.CR ∧ c ≠ Unicode.LF) as Hin.
  { intros c Hc.
    assert (c ∈ filter (λ c, c ≠ Unicode.CR ∧ c ≠ Unicode.LF) s) as Hc'.
    { rewrite Hpq. apply elem_of_app. right. apply elem_of_app. by left. }
    by apply list_elem_of_filter in Hc' as [? _]. }
  repeat split; [| |exact Hhead|exact Hlast].
  - intros Hc%Hin. tauto.
  - intros Hc%Hin. tauto.
Qed.

Lemma clean_str_result_is_clean_witness :
  head (Unicode._clean_str (Some [8195; 97; 13; 98; 12288]%N)) = Some 97%N
  ∧ last (Unicode._clean_str (Some [8195; 97; 13; 98; 12288]%N)) = Some 98%N
  ∧ Unicode.py_isspace 97 = false
  ∧ Unicode.py_isspace 98 = false.
Proof.
  split; [reflexivity|]. split; [reflexivity|]. split.
  - apply (proj1 (proj2 (proj2 (clean_str_result_is_clean
                                  (Some [8195; 97; 13; 98; 12288]%N))))).
    reflexivity.
  - apply (proj2 (proj2 (proj2 (clean_str_result_is_clean
                                  (Some [8195; 97; 13; 98; 12288]%N))))).
    reflexivity.
Defined.

(** X17: cleaning only deletes.  For a text that is not empty, the text
    without its carriage returns and newlines is the result of [_clean_str]
    between a run of whitespace before it and a run of whitespace after
    it: no other character is lost, none is added, and the order is kept. *)
Theorem clean_str_only_deletes (s : list N) :
  s ≠ [] →
  ∃ p q,
    filter (λ c, c ≠ Unicode.CR ∧ c ≠ Unicode.LF) s
    = p ++ Unicode._clean_str (Some s) ++ q
    ∧ Forall (λ c, Unicode.py_isspace c = true) p
    ∧ Forall (λ c, Unicode.py_isspace c = true) q.
Proof.
  intros Hs. rewrite (clean_str_strips s Hs).
  destruct (strip_split (filter (λ c, c ≠ Unicode.CR ∧ c ≠ Unicode.LF) s))
    as (p & q & Hpq & Hp & Hq & _). by exists p, q.
Qed.

Lemma clean_str_only_deletes_witness :
  [8195; 97; 13; 98; 12288]%N ≠ []
  ∧ ∃ p q,
      filter (λ c, c ≠ Unicode.CR ∧ c ≠ Unicode.LF) [8195; 97; 13; 98; 12288]%N
      = p ++ Unicode._clean_str (Some [8195; 97; 13; 98; 12288]%N) ++ q
      ∧ Forall (λ c, Unicode.py_isspace c = true) p
      ∧ Forall (λ c, Unicode.py_isspace c = true) q.
Proof.
  split; [discriminate|].
  apply (clean_str_only_deletes [8195; 97; 13; 98; 12288]%N). discriminate.
Defined.

(** X18: [_clean_str] returns the empty text exactly for a text that is not
    empty and made of whitespace only (carriage returns and newlines
    included): such a text is not replaced by the placeholder ["Nan"], which
    stands for the missing and for the empty text only. *)
Theorem clean_str_empty_result (str_to_clean : option (list N)) :
  Unicode._clean_str str_to_clean = []
  ↔ ∃ s, str_to_clean = Some s ∧ s ≠ []
         ∧ Forall (λ c, Unicode.py_isspace c = true) s.
Proof.
  split.
  - destruct str_to_clean as [s|]; [|discriminate].
    destruct (decide (s = [])) as [->|Hs]; [discriminate|].
    rewrite (clean_str_strips s Hs).
    destruct (strip_split (filter (λ c, c ≠ Unicode.CR ∧ c ≠ Unicode.LF) s))
      as (p & q & Hpq & Hp & Hq & _).
    intros Hempty. rewrite Hempty in Hpq. simpl in Hpq.
    exists s. split; [done|]. split; [done|].
    apply Forall_forall. intros c Hc.
    destruct line_breaks_are_space as [Hcr Hlf].
    destruct (decide (c = Unicode.CR)) as [->|?]; [done|].
    destruct (decide (c = Unicode.LF)) as [->|?]; [done|].
    assert (c ∈ p ++ q) as Hin.
    { rewrite <-Hpq. apply list_elem_of_filter. done. }
    apply elem_of_app in Hin as [Hin|Hin];
      [rewrite Forall_forall in Hp; by apply Hp
      |rewrite Forall_forall in Hq; by apply Hq].
  - intros (s & -> & Hs & Hws).
    rewrite (clean_str_strips s Hs).
    destruct (strip_split (filter (λ c, c ≠ Unicode.CR ∧ c ≠ Unicode.LF) s))
      as (p & q & Hpq & _ & _ & Hhead & _).
    destruct (Unicode.strip (filter (λ c, c ≠ Unicode.CR ∧ c ≠ Unicode.LF) s))
      as [|c r] eqn:Hr; [done|].
    specialize (Hhead c eq_refl).
    assert (c ∈ s) as Hc.
    { assert (c ∈ filter (λ c, c ≠ Unicode.CR ∧ c ≠ Unicode.LF) s) as Hc'.
      { rewrite Hpq. apply elem_of_app. right.
        apply elem_of_app. left. apply list_elem_of_here. }
      by apply list_elem_of_filter in Hc' as [_ ?]. }
    rewrite Forall_forall in Hws. specialize (Hws c Hc). congruence.
Qed.

Lemma clean_str_empty_result_witness :
  Unicode._clean_str (Some [8195; 13; 12288]%N) = []
  ∧ Unicode._clean_str (Some []) ≠ [].
Proof.
  split.
  - apply (proj2 (clean_str_empty_result (Some [8195; 13; 12288]%N))).
    exists [8195; 13; 12288]%N. split; [done|]. split; [done|].
    by repeat constructor.
  - intros (s & [= <-] & Hs & _)%clean_str_empty_result. done.
Defined.
